(** * flexithreadpool-cpp11: a shallow embedding of [threadpool.h] / [threadpool.cpp]

    The pool is concurrent C++.  Every piece of code that runs while
    [taskQueMtx_] is held is embedded as one function on the shared
    state; a blocking wait ends the section and shows up as the outcome
    [Blocked], and the thread comes back through the function of its
    wake-up.  Code that runs without the mutex is split at its accesses
    to the atomics ([threadIdelSize_++] after a task,
    [isPoolRunning_ = false] in the destructor), each a move of its own
    that is taken between locked sections.  Console output ([std::cout],
    [std::cerr]) is not modelled. *)

From stdpp Require Import gmap strings list.

Open Scope Z_scope.

(** ** Machine integers *)

(** [size_t] on the 64-bit targets the project builds for. *)
Definition SIZE_MOD : Z := 2 ^ 64.
Definition wrap64 (z : Z) : Z := z mod SIZE_MOD.
Definition INT_MAX : Z := 2147483647.

(** Constants of threadpool.h. *)
Definition TASK_MAX_THRESHOLD : Z := INT_MAX.
Definition THREAD_MAX_THRESHHOLD : Z := 1024.
Definition THREAD_IDLE_TIME : Z := 2.

(** ** Outcomes of a piece of code run on a state [S] *)

Inductive fault :=
  | NullDeref          (* [->] through a null pointer *)
  | DanglingDeref      (* [->] through a pointer to a dead object *)
  | SignedOverflow.    (* [i++] on an [int] holding [INT_MAX] *)

Inductive outcome (S A : Type) :=
  | Done (a : A) (s : S)     (* ran to its end *)
  | Blocked (s : S)          (* parked on a condition variable in state [s] *)
  | Fault (f : fault).       (* undefined behaviour *)
Arguments Done {S A} a s.
Arguments Blocked {S A} s.
Arguments Fault {S A} f.

Definition M (S A : Type) : Type := S → outcome S A.

Definition ret {S A} (a : A) : M S A := λ s, Done a s.
Definition bind {S A B} (m : M S A) (k : A → M S B) : M S B :=
  λ s, match m s with
       | Done a s' => k a s'
       | Blocked s' => Blocked s'
       | Fault f => Fault f
       end.
Definition gets {S A} (f : S → A) : M S A := λ s, Done (f s) s.
Definition modify {S} (f : S → S) : M S unit := λ s, Done tt (f s).
Definition raise {S A} (f : fault) : M S A := λ _, Fault f.
Definition park {S A} : M S A := λ s, Blocked s.

Notation "'let*' x ':=' m 'in' k" := (bind m (λ x, k))
  (at level 10, x pattern, m at level 100, k at level 200, only parsing).
Notation "m '>>' k" := (bind m (λ _, k))
  (at level 100, k at level 200, right associativity, only parsing).

(** ** threadpool.h: PoolMode *)

Inductive PoolMode := MODE_FIXED | MODE_CACHED.

Global Instance PoolMode_eq_dec : EqDecision PoolMode.
Proof. solve_decision. Defined.

(** Exceptions: [throw "type is unmatch!"] carries a C string. *)
Inductive thrown (A : Type) :=
  | Returns (a : A)
  | Throws (what : string).
Arguments Returns {A} a.
Arguments Throws {A} what.

(** Pointers are addresses; [None] is [nullptr]. *)
Abbreviation addr := Z.

(** The three condition variables of the pool. *)
Inductive cond := notFull_ | notEmpty_ | exitCond_.

(** What the pool does to the outside: broadcasts on its condition
    variables, OS threads it launches, and calls of the user's [run()]. *)
Inductive event :=
  | NotifyAll (c : cond)
  | Launch (threadId : Z)       (* [std::thread t(func_, threadId_); t.detach()] *)
  | Run (task : addr).          (* the virtual call [run()] on the task at [task] *)

Inductive cv_status := no_timeout | timeout.

(** ** The result types of main.cpp: [MyTask::run] returns an
    [unsigned long long]. *)

Inductive main_type := Ulong.

Global Instance main_type_eq_dec : EqDecision main_type.
Proof. solve_decision. Defined.

Definition main_El (t : main_type) : Type :=
  match t with Ulong => Z end.

(** ** main.cpp: [MyTask]

    [run()] adds up the numbers from [begin_] to [end_] in an
    [unsigned long long] (its three-second sleep and its prints are left
    out).  [left] is the number of iterations the loop may take; [None]
    says they were not enough. *)
Fixpoint MyTask_loop (left : nat) (end_ i sum : Z) : option Z :=
  if i <=? end_ then
    match left with
    | O => None
    | S left' => MyTask_loop left' end_ (wrap64 (i + 1)) (wrap64 (sum + i))
    end
  else Some sum.

Definition MyTask_run (left : nat) (begin_ end_ : Z) : option Z :=
  MyTask_loop left end_ begin_ 0.

Section Model.
(** The C++ types a task may return are open-ended: [U] names them and
    [El] gives their values; RTTI can tell two types apart. *)
Context {U : Type} `{EqDecision U} {El : U → Type}.

(** ** class Any *)

(** Pointer-to-const-char is singled out because [Result::get] builds an
    [Any] from the empty string literal. *)
Inductive ctype :=
  | const_char_ptr
  | user_type (u : U).

Global Instance ctype_eq_dec : EqDecision ctype.
Proof. solve_decision. Defined.

Definition denote (T : ctype) : Type :=
  match T with
  | const_char_ptr => string
  | user_type u => El u
  end.

(** [Derive<T>]: the dynamic type and [data_]. *)
Record Derive := mkDerive { dyn_type : ctype; data_ : denote dyn_type }.

(** [Any]: [std::unique_ptr<Base> base_], null in a default-constructed
    or moved-from [Any]. *)
Record Any := mkAny { base_ : option Derive }.

(** [Any() = default] *)
Definition Any_default : Any := mkAny None.

(** [template <typename T> Any(T data) : base_(new Derive<T>(data))] *)
Definition Any_of (T : ctype) (data : denote T) : Any :=
  mkAny (Some (mkDerive T data)).

(** [dynamic_cast<Derive<T> *>(base_.get())] *)
Definition dynamic_cast (T : ctype) (b : option Derive) : option (denote T) :=
  match b with
  | None => None
  | Some d =>
      match decide (dyn_type d = T) with
      | left e => Some (eq_rect (dyn_type d) denote (data_ d) T e)
      | right _ => None
      end
  end.

(** [template <typename T> T cast_()] *)
Definition cast_ (T : ctype) (a : Any) : thrown (denote T) :=
  match dynamic_cast T (base_ a) with
  | None => Throws "type is unmatch!"
  | Some data => Returns data
  end.

(** ** class Semaphore *)

Record Semaphore := mkSemaphore { resLimit_ : Z; isExit_ : bool }.

(** [Semaphore(size_t limit = 0)] *)
Definition Semaphore_ctor (limit : Z) : Semaphore :=
  {| resLimit_ := limit; isExit_ := false |}.

(** [wait()]: [cond_.wait(lock, resLimit_ > 0)] parks the caller until
    the count is positive. *)
Definition Semaphore_wait : M Semaphore unit :=
  let* exited := gets isExit_ in
  if (exited : bool) then ret tt
  else
    let* n := gets resLimit_ in
    if 0 <? n
    then modify (λ s, {| resLimit_ := wrap64 (resLimit_ s - 1); isExit_ := isExit_ s |})
    else park.

(** [post()]; the broadcast on the semaphore's own condition variable is
    what lets a parked [wait()] try again. *)
Definition Semaphore_post : M Semaphore unit :=
  let* exited := gets isExit_ in
  if (exited : bool) then ret tt
  else modify (λ s, {| resLimit_ := wrap64 (resLimit_ s + 1); isExit_ := isExit_ s |}).

(** ** class Result *)

Record Result := mkResult {
  any_ : Any;
  sem_ : Semaphore;
  task_ : option addr;      (* std::shared_ptr<Task> *)
  isValid_ : bool }.

(** Run a semaphore operation on the [sem_] member. *)
Definition on_sem {A} (m : M Semaphore A) : M Result A :=
  λ r, let put s := {| any_ := any_ r; sem_ := s; task_ := task_ r; isValid_ := isValid_ r |} in
       match m (sem_ r) with
       | Done a s => Done a (put s)
       | Blocked s => Blocked (put s)
       | Fault f => Fault f
       end.

(** [void Result::setVal(Any any)] *)
Definition Result_setVal (any : Any) : M Result unit :=
  modify (λ r, {| any_ := any; sem_ := sem_ r; task_ := task_ r; isValid_ := isValid_ r |}) >>
  on_sem Semaphore_post.

(** [Any Result::get()]; returning the empty string literal converts it
    through the template constructor of [Any] at type pointer-to-const-char,
    and [std::move(any_)] leaves [any_] empty. *)
Definition Result_get : M Result Any :=
  let* valid := gets isValid_ in
  if negb valid then ret (Any_of const_char_ptr EmptyString)
  else
    on_sem Semaphore_wait >>
    let* v := gets any_ in
    modify (λ r, {| any_ := Any_default; sem_ := sem_ r; task_ := task_ r; isValid_ := isValid_ r |}) >>
    ret v.

(** [Result::Result(Result &&other)]: only [task_] and [isValid_] are in
    the initialiser list, so [any_] and [sem_] of the new object are
    default-constructed.  Returns the new object and what is left of
    [other]. *)
Definition Result_move (other : Result) : Result * Result :=
  ({| any_ := Any_default; sem_ := Semaphore_ctor 0;
      task_ := task_ other; isValid_ := isValid_ other |},
   {| any_ := any_ other; sem_ := sem_ other;
      task_ := None; isValid_ := false |}).

(** ** class Task *)

(** [result_] and the value the user's [run()] override produces. *)
Record Task := mkTask { result_ : option addr; run : Any }.

(** [Task::Task() : result_(nullptr)] *)
Definition Task_ctor (run : Any) : Task := {| result_ := None; run := run |}.

(** [void Task::setResult(Result *res)] *)
Definition Task_setResult (res : option addr) (t : Task) : Task :=
  {| result_ := res; run := run t |}.

(** ** class Thread *)

(** [func_] is always the pool's [threadHandler] bound to the pool, so
    only [threadId_] is kept. *)
Record Thread := mkThread { threadId_ : Z }.

(** [size_t Thread::getId() const] *)
Definition getId (t : Thread) : Z := threadId_ t.

(** ** class ThreadPool: the data members *)

Record ThreadPool := mkThreadPool {
  threads_ : gmap Z Thread;          (* unordered_map<size_t, unique_ptr<Thread>> *)
  initThreadSize_ : Z;
  curThreadSize_ : Z;
  threadIdelSize_ : Z;
  threadSizeThreshHold_ : Z;
  taskQue_ : list (option addr);     (* queue<shared_ptr<Task>>, front first *)
  taskSize_ : Z;
  taskQueMaxThreshHold_ : Z;
  poolMode_ : PoolMode;
  isPoolRunning_ : bool }.

Definition set_threads_ (f : gmap Z Thread → gmap Z Thread) (p : ThreadPool) : ThreadPool :=
  mkThreadPool (f (threads_ p)) (initThreadSize_ p) (curThreadSize_ p) (threadIdelSize_ p)
    (threadSizeThreshHold_ p) (taskQue_ p) (taskSize_ p) (taskQueMaxThreshHold_ p)
    (poolMode_ p) (isPoolRunning_ p).
Definition set_initThreadSize_ (v : Z) (p : ThreadPool) : ThreadPool :=
  mkThreadPool (threads_ p) v (curThreadSize_ p) (threadIdelSize_ p)
    (threadSizeThreshHold_ p) (taskQue_ p) (taskSize_ p) (taskQueMaxThreshHold_ p)
    (poolMode_ p) (isPoolRunning_ p).
Definition set_curThreadSize_ (f : Z → Z) (p : ThreadPool) : ThreadPool :=
  mkThreadPool (threads_ p) (initThreadSize_ p) (f (curThreadSize_ p)) (threadIdelSize_ p)
    (threadSizeThreshHold_ p) (taskQue_ p) (taskSize_ p) (taskQueMaxThreshHold_ p)
    (poolMode_ p) (isPoolRunning_ p).
Definition set_threadIdelSize_ (f : Z → Z) (p : ThreadPool) : ThreadPool :=
  mkThreadPool (threads_ p) (initThreadSize_ p) (curThreadSize_ p) (f (threadIdelSize_ p))
    (threadSizeThreshHold_ p) (taskQue_ p) (taskSize_ p) (taskQueMaxThreshHold_ p)
    (poolMode_ p) (isPoolRunning_ p).
Definition set_threadSizeThreshHold_ (v : Z) (p : ThreadPool) : ThreadPool :=
  mkThreadPool (threads_ p) (initThreadSize_ p) (curThreadSize_ p) (threadIdelSize_ p)
    v (taskQue_ p) (taskSize_ p) (taskQueMaxThreshHold_ p)
    (poolMode_ p) (isPoolRunning_ p).
Definition set_taskQue_ (f : list (option addr) → list (option addr)) (p : ThreadPool) : ThreadPool :=
  mkThreadPool (threads_ p) (initThreadSize_ p) (curThreadSize_ p) (threadIdelSize_ p)
    (threadSizeThreshHold_ p) (f (taskQue_ p)) (taskSize_ p) (taskQueMaxThreshHold_ p)
    (poolMode_ p) (isPoolRunning_ p).
Definition set_taskSize_ (f : Z → Z) (p : ThreadPool) : ThreadPool :=
  mkThreadPool (threads_ p) (initThreadSize_ p) (curThreadSize_ p) (threadIdelSize_ p)
    (threadSizeThreshHold_ p) (taskQue_ p) (f (taskSize_ p)) (taskQueMaxThreshHold_ p)
    (poolMode_ p) (isPoolRunning_ p).
Definition set_taskQueMaxThreshHold_ (v : Z) (p : ThreadPool) : ThreadPool :=
  mkThreadPool (threads_ p) (initThreadSize_ p) (curThreadSize_ p) (threadIdelSize_ p)
    (threadSizeThreshHold_ p) (taskQue_ p) (taskSize_ p) v
    (poolMode_ p) (isPoolRunning_ p).
Definition set_poolMode_ (v : PoolMode) (p : ThreadPool) : ThreadPool :=
  mkThreadPool (threads_ p) (initThreadSize_ p) (curThreadSize_ p) (threadIdelSize_ p)
    (threadSizeThreshHold_ p) (taskQue_ p) (taskSize_ p) (taskQueMaxThreshHold_ p)
    v (isPoolRunning_ p).
Definition set_isPoolRunning_ (v : bool) (p : ThreadPool) : ThreadPool :=
  mkThreadPool (threads_ p) (initThreadSize_ p) (curThreadSize_ p) (threadIdelSize_ p)
    (threadSizeThreshHold_ p) (taskQue_ p) (taskSize_ p) (taskQueMaxThreshHold_ p)
    (poolMode_ p) v.

(** [x++] and [x--] on a [size_t] or [std::atomic_size_t]. *)
Definition incr (x : Z) : Z := wrap64 (x + 1).
Definition decr (x : Z) : Z := wrap64 (x - 1).

(** [ThreadPool::ThreadPool()] *)
Definition ThreadPool_ctor : ThreadPool :=
  {| threads_ := ∅;
     initThreadSize_ := 0;
     curThreadSize_ := 0;
     threadIdelSize_ := 0;
     threadSizeThreshHold_ := THREAD_MAX_THRESHHOLD;
     taskQue_ := [];
     taskSize_ := 0;
     taskQueMaxThreshHold_ := TASK_MAX_THRESHOLD;
     poolMode_ := MODE_FIXED;
     isPoolRunning_ := false |}.

(** ** The process: one pool, the static [Thread::generateId_], the
    [Task] and [Result] objects by address, and the events so far
    (oldest first). *)

Record World := mkWorld {
  pool : ThreadPool;
  generateId_ : Z;
  tasks : gmap Z Task;
  results : gmap Z Result;
  events : list event }.

Definition modify_pool (f : ThreadPool → ThreadPool) : M World unit :=
  modify (λ w, mkWorld (f (pool w)) (generateId_ w) (tasks w) (results w) (events w)).
Definition set_generateId_ (v : Z) : M World unit :=
  modify (λ w, mkWorld (pool w) v (tasks w) (results w) (events w)).
Definition set_tasks (f : gmap Z Task → gmap Z Task) : M World unit :=
  modify (λ w, mkWorld (pool w) (generateId_ w) (f (tasks w)) (results w) (events w)).
Definition set_results (f : gmap Z Result → gmap Z Result) : M World unit :=
  modify (λ w, mkWorld (pool w) (generateId_ w) (tasks w) (f (results w)) (events w)).
Definition emit (e : event) : M World unit :=
  modify (λ w, mkWorld (pool w) (generateId_ w) (tasks w) (results w) (events w ++ [e])).

(** [cv.notify_all()] *)
Definition notify_all (c : cond) : M World unit := emit (NotifyAll c).

(** [p->] on a [Task] pointer. *)
Definition deref_task (p : option addr) : M World Task :=
  match p with
  | None => raise NullDeref
  | Some a =>
      let* ts := gets tasks in
      match ts !! a with
      | None => raise DanglingDeref
      | Some t => ret t
      end
  end.

(** Run a member function of [Result] on the object at [p]. *)
Definition on_result {A} (p : addr) (m : M Result A) : M World A :=
  λ w, let put r := mkWorld (pool w) (generateId_ w) (tasks w) (<[p:=r]> (results w)) (events w) in
       match results w !! p with
       | None => Fault DanglingDeref
       | Some r =>
           match m r with
           | Done a r' => Done a (put r')
           | Blocked r' => Blocked (put r')
           | Fault f => Fault f
           end
       end.

(** [Result::Result(std::shared_ptr<Task> task, bool isValid)], building
    the object at address [this]. *)
Definition Result_ctor (this : addr) (task : option addr) (isValid : bool) : M World unit :=
  set_results (<[this := {| any_ := Any_default; sem_ := Semaphore_ctor 0;
                            task_ := task; isValid_ := isValid |}]>) >>
  let* t := deref_task task in
  match task with
  | Some a => set_tasks (<[a := Task_setResult (Some this) t]>)
  | None => ret tt
  end.

(** [void Task::exec()] on the task at [this]. *)
Definition Task_exec (this : addr) : M World unit :=
  let* t := deref_task (Some this) in
  match result_ t with
  | Some res =>
      emit (Run this) >>
      on_result res (Result_setVal (run t))
  | None => ret tt
  end.

(** [Thread::Thread(ThreadFunc func) : threadId_(generateId_++)] *)
Definition Thread_ctor : M World Thread :=
  let* g := gets generateId_ in
  set_generateId_ (incr g) >>
  ret (mkThread g).

(** [void Thread::start()] *)
Definition Thread_start (t : Thread) : M World unit := emit (Launch (threadId_ t)).

(** [threads_.emplace(threadId, std::move(ptr))]: no effect on a key that
    is already present. *)
Definition emplace (threadId : Z) (ptr : Thread) (m : gmap Z Thread) : gmap Z Thread :=
  match m !! threadId with
  | Some _ => m
  | None => <[threadId := ptr]> m
  end.

(** [threads_[key]->start()]: [operator[]] on an absent key inserts a null
    [unique_ptr], and [->] on it is undefined. *)
Definition threads_at_start (key : Z) : M World unit :=
  let* p := gets pool in
  match threads_ p !! key with
  | Some t => Thread_start t
  | None => raise NullDeref
  end.

(** ** class ThreadPool: the member functions *)

(** [bool ThreadPool::checkRunningState() const] *)
Definition checkRunningState : M World bool := gets (λ w, isPoolRunning_ (pool w)).

(** [void ThreadPool::setPoolMode(PoolMode mode)] *)
Definition setPoolMode (mode : PoolMode) : M World unit :=
  let* running := checkRunningState in
  if (running : bool) then ret tt
  else modify_pool (set_poolMode_ mode).

(** [void ThreadPool::setTaskQueMaxThreshHold(size_t threshhold)] *)
Definition setTaskQueMaxThreshHold (threshhold : Z) : M World unit :=
  let* running := checkRunningState in
  if (running : bool) then ret tt
  else modify_pool (set_taskQueMaxThreshHold_ threshhold).

(** [void ThreadPool::setThreadMaxThreshHold(size_t threshhold)] *)
Definition setThreadMaxThreshHold (threshhold : Z) : M World unit :=
  let* running := checkRunningState in
  if (running : bool) then ret tt
  else
    let* p := gets pool in
    if decide (poolMode_ p = MODE_CACHED)
    then modify_pool (set_threadSizeThreshHold_ threshhold)
    else ret tt.

(** [taskQue_.size()] *)
Definition queue_size (p : ThreadPool) : Z := Z.of_nat (length (taskQue_ p)).

(** [Result ThreadPool::submitTask(std::shared_ptr<Task> sp)].

    The function is taken from the moment [notFull_.wait_for] hands the
    mutex back: its return value is the predicate
    [taskQue_.size() < taskQueMaxThreshHold_] in the state of that
    moment, true as soon as the predicate holds and false once the
    second has passed without it.  The returned object is built in
    place at [ret_slot] (the elision the source relies on). *)
Definition submitTask (sp : option addr) (ret_slot : addr) : M World unit :=
  let* p := gets pool in
  if negb (queue_size p <? taskQueMaxThreshHold_ p) then
    Result_ctor ret_slot sp false
  else
    modify_pool (set_taskQue_ (λ q, q ++ [sp])) >>
    modify_pool (set_taskSize_ incr) >>
    notify_all notEmpty_ >>
    let* p := gets pool in
    (if bool_decide (poolMode_ p = MODE_CACHED)
        && (threadIdelSize_ p <? taskSize_ p)
        && (curThreadSize_ p <? threadSizeThreshHold_ p)
     then
       let* ptr := Thread_ctor in
       let threadId := getId ptr in
       modify_pool (set_threads_ (emplace threadId ptr)) >>
       threads_at_start threadId >>
       modify_pool (set_curThreadSize_ incr) >>
       modify_pool (set_threadIdelSize_ incr)
     else ret tt) >>
    Result_ctor ret_slot sp true.

(** [for (int i = ...; i < n; i++) body]: [i] is an [int] compared with a
    [size_t], and [i++] at [INT_MAX] is undefined.  The recursion is on
    the number of iterations left, [n - i]. *)
Fixpoint for_int (left : nat) (i n : Z) (body : Z → M World unit) : M World unit :=
  match left with
  | O => ret tt
  | S left' =>
      if i <? n then
        body i >>
        if i =? INT_MAX then raise SignedOverflow
        else for_int left' (i + 1) n body
      else ret tt
  end.

(** The body of the first loop of [start]: build a [Thread] and put it
    in the registry under its identifier. *)
Definition start_create : M World unit :=
  let* ptr := Thread_ctor in
  let threadId := getId ptr in
  modify_pool (set_threads_ (emplace threadId ptr)).

(** The body of the second loop of [start]: [threads_[i]->start()] with
    the loop counter as the key, then [threadIdelSize_++]. *)
Definition start_launch (i : Z) : M World unit :=
  threads_at_start i >>
  modify_pool (set_threadIdelSize_ incr).

(** [void ThreadPool::start(size_t initThreadSize)]; the loops do not
    write [initThreadSize_], which is read once here. *)
Definition start (initThreadSize : Z) : M World unit :=
  modify_pool (set_isPoolRunning_ true) >>
  modify_pool (set_initThreadSize_ initThreadSize) >>
  modify_pool (set_curThreadSize_ (λ _, initThreadSize)) >>
  let* n := gets (λ w, initThreadSize_ (pool w)) in
  for_int (Z.to_nat n) 0 n (λ _, start_create) >>
  for_int (Z.to_nat n) 0 n start_launch.

(** ** [void ThreadPool::threadHandler(size_t threadid)]

    One worker alternates between sections under the mutex and code
    outside it.  [handler_next] says where the worker goes when a
    locked section ends. *)
Inductive handler_next :=
  | handler_return                      (* [return]: the OS thread ends *)
  | handler_wait                        (* parks on [notEmpty_] *)
  | handler_got (task : option addr).   (* leaves the block with a task *)

(** From the test of [while (taskQue_.size() == 0)] to the wait, the
    [return], or the end of the locked block. *)
Definition threadHandler_locked (threadid : Z) : M World handler_next :=
  let* p := gets pool in
  if queue_size p =? 0 then
    if negb (isPoolRunning_ p) then
      modify_pool (set_threads_ (delete threadid)) >>
      notify_all exitCond_ >>
      ret handler_return
    else ret handler_wait
  else
    modify_pool (set_threadIdelSize_ decr) >>
    let task := default None (head (taskQue_ p)) in
    modify_pool (set_taskQue_ (drop 1)) >>
    modify_pool (set_taskSize_ decr) >>
    let* p := gets pool in
    (if 0 <? queue_size p then notify_all notEmpty_ else ret tt) >>
    notify_all notFull_ >>
    ret (handler_got task).

(** The worker wakes on [notEmpty_] holding the mutex again.  In cached
    mode [st] is what [wait_for] returned and [dur] the whole seconds
    since [lastTime]; fixed mode waits without a status. *)
Definition threadHandler_woken (threadid : Z) (st : cv_status) (dur : Z)
  : M World handler_next :=
  let* p := gets pool in
  if decide (poolMode_ p = MODE_CACHED) then
    match st with
    | timeout =>
        if (THREAD_IDLE_TIME <=? wrap64 dur) && (initThreadSize_ p <? curThreadSize_ p)
        then
          modify_pool (set_threads_ (delete threadid)) >>
          modify_pool (set_curThreadSize_ decr) >>
          modify_pool (set_threadIdelSize_ decr) >>
          ret handler_return
        else threadHandler_locked threadid
    | no_timeout => threadHandler_locked threadid
    end
  else threadHandler_locked threadid.

(** [if (task != nullptr) task->exec();], outside the mutex. *)
Definition threadHandler_exec (task : option addr) : M World unit :=
  match task with
  | Some t => Task_exec t
  | None => ret tt
  end.

(** [threadIdelSize_++] after the task; [lastTime] is local to the
    worker and reaches the model as [dur]. *)
Definition threadHandler_idle : M World unit :=
  modify_pool (set_threadIdelSize_ incr).

(** ** [ThreadPool::~ThreadPool()] *)

(** [exitCond_.wait(lock, threads_.size() == 0)] *)
Definition dtor_wait : M World unit :=
  let* p := gets pool in
  if Z.of_nat (size (threads_ p)) =? 0 then ret tt else park.

(** [isPoolRunning_ = false;], before the mutex is taken. *)
Definition dtor_stop : M World unit := modify_pool (set_isPoolRunning_ false).

(** The locked part: the broadcast and the first test of the wait. *)
Definition dtor_locked : M World unit :=
  notify_all notEmpty_ >>
  dtor_wait.

Definition ThreadPool_dtor : M World unit :=
  dtor_stop >>
  dtor_locked.

(** ** The pool as a transition system

    The atomic pieces above, as the moves the threads of the process can
    make.  A move that parks its thread still leaves its writes behind.
    The moves are not tied to a program counter per thread: any order of
    them is a run, which covers every interleaving of the real threads. *)

Inductive op :=
  | call_setPoolMode (mode : PoolMode)
  | call_setTaskQueMaxThreshHold (threshhold : Z)
  | call_setThreadMaxThreshHold (threshhold : Z)
  | call_start (initThreadSize : Z)
  | call_submitTask (sp : option addr) (ret_slot : addr)
  | worker_locked (threadid : Z)
  | worker_woken (threadid : Z) (st : cv_status) (dur : Z)
  | worker_exec (task : option addr)
  | worker_idle
  | main_dtor_stop
  | main_dtor_locked
  | main_dtor_woken.

Definition forget {A} (m : M World A) : M World unit := m >> ret tt.

Definition exec_op (o : op) : M World unit :=
  match o with
  | call_setPoolMode mode => setPoolMode mode
  | call_setTaskQueMaxThreshHold n => setTaskQueMaxThreshHold n
  | call_setThreadMaxThreshHold n => setThreadMaxThreshHold n
  | call_start n => start n
  | call_submitTask sp ret_slot => submitTask sp ret_slot
  | worker_locked threadid => forget (threadHandler_locked threadid)
  | worker_woken threadid st dur => forget (threadHandler_woken threadid st dur)
  | worker_exec task => threadHandler_exec task
  | worker_idle => threadHandler_idle
  | main_dtor_stop => dtor_stop
  | main_dtor_locked => dtor_locked
  | main_dtor_woken => dtor_wait
  end.

(** The shared state a move leaves behind; none after undefined
    behaviour. *)
Definition after {A} (r : outcome World A) : option World :=
  match r with
  | Done _ w => Some w
  | Blocked w => Some w
  | Fault _ => None
  end.

Fixpoint run_ops (ops : list op) (w : World) : option World :=
  match ops with
  | [] => Some w
  | o :: ops' =>
      match after (exec_op o w) with
      | Some w' => run_ops ops' w'
      | None => None
      end
  end.

(** A process that has just constructed its pool; the user's tasks
    [ts] exist and no [Thread] was ever built. *)
Definition World_init (ts : gmap Z Task) : World :=
  mkWorld ThreadPool_ctor 0 ts ∅ [].

Definition reachable (w : World) : Prop :=
  ∃ ts ops, run_ops ops (World_init ts) = Some w.

(** The moves open to the process once [start] has returned: the three
    setters and [submitTask] as long as the destructor has not begun,
    the workers' moves at any time, the destructor's moves from then
    on; [start] is not called again. *)
Fixpoint after_start (stopping : bool) (ops : list op) : bool :=
  match ops with
  | [] => true
  | o :: ops' =>
      match o with
      | call_start _ => false
      | call_setPoolMode _ | call_setTaskQueMaxThreshHold _
      | call_setThreadMaxThreshHold _ | call_submitTask _ _ =>
          negb stopping && after_start stopping ops'
      | worker_locked _ | worker_woken _ _ _ | worker_exec _ | worker_idle =>
          after_start stopping ops'
      | main_dtor_stop => negb stopping && after_start true ops'
      | main_dtor_locked | main_dtor_woken => stopping && after_start true ops'
      end
  end.

(** Two pool states that agree on the worker count, its two limits and
    the running flag. *)
Definition same_limits (p p' : ThreadPool) : Prop :=
  initThreadSize_ p' = initThreadSize_ p ∧
  curThreadSize_ p' = curThreadSize_ p ∧
  threadSizeThreshHold_ p' = threadSizeThreshHold_ p ∧
  isPoolRunning_ p' = isPoolRunning_ p.

(** What holds of the pool from the return of [start n] on, under the
    ceiling [c]; [stopping] tells whether the destructor has begun. *)
Definition lifecycle_inv (stopping : bool) (n c : Z) (p : ThreadPool) : Prop :=
  (0 ≤ n < SIZE_MOD ∧ c < SIZE_MOD) ∧
  initThreadSize_ p = n ∧
  threadSizeThreshHold_ p = c ∧
  n ≤ curThreadSize_ p ∧ curThreadSize_ p ≤ Z.max n c ∧
  (stopping = false → isPoolRunning_ p = true).

(** A registry that holds exactly the workers [0 .. n-1], each under
    its own identifier. *)
Definition holds_upto (T : gmap Z Thread) (n : Z) : Prop :=
  ∀ k : Z, T !! k = if bool_decide (0 ≤ k < n) then Some (mkThread k) else None.

(** ** Further members of the classes *)

(** [Semaphore::~Semaphore()] *)
Definition Semaphore_dtor : M Semaphore unit :=
  modify (λ s, {| resLimit_ := resLimit_ s; isExit_ := true |}).

(** [Result::Result(Result &&other)] building the object at [this] from
    the object at [other]. *)
Definition Result_move_ctor (this other : addr) : M World unit :=
  let* rs := gets results in
  match rs !! other with
  | None => raise DanglingDeref
  | Some o =>
      set_results (<[other := (Result_move o).2]>) >>
      set_results (<[this := (Result_move o).1]>)
  end.


(** The task count mirrors the queue, and every registered worker sits
    under its own identifier. *)
Definition pool_consistent (p : ThreadPool) : Prop :=
  taskSize_ p = wrap64 (queue_size p) ∧
  ∀ k t, threads_ p !! k = Some t → threadId_ t = k.

(** What holds of the queue and the configuration from the return of
    [start] on: the mode and the queue bound [b] stay, and the queue
    holds at most [b] tasks. *)
Definition queue_inv (stopping : bool) (mode : PoolMode) (b : Z) (p : ThreadPool) : Prop :=
  poolMode_ p = mode ∧
  taskQueMaxThreshHold_ p = b ∧
  queue_size p ≤ b ∧
  (stopping = false → isPoolRunning_ p = true).

(** * Properties *)

(** ** Any *)

Lemma dynamic_cast_same (T : ctype) (v : denote T) :
  dynamic_cast T (Some (mkDerive T v)) = Some v.
Proof.
  unfold dynamic_cast; simpl.
  destruct (decide (T = T)) as [e|ne]; [|done].
  by rewrite (proof_irrel e eq_refl).
Qed.

Lemma dynamic_cast_other (T : ctype) (d : Derive) :
  dyn_type d ≠ T → dynamic_cast T (Some d) = None.
Proof. intros ne. unfold dynamic_cast. by destruct (decide (dyn_type d = T)). Qed.

(** C6: [cast_<T>] on an [Any] built from a [T] gives the value back, and
    [cast_<T>] on an [Any] that holds no [T] (another type, or nothing)
    throws the type-mismatch message. *)
Theorem cast_roundtrip_or_mismatch :
  (∀ (T : ctype) (v : denote T), cast_ T (Any_of T v) = Returns v) ∧
  (∀ (T : ctype) (a : Any),
      (∀ d, base_ a = Some d → dyn_type d ≠ T) →
      cast_ T a = Throws "type is unmatch!").
Proof.
  split.
  - intros T v. unfold cast_.
    change (base_ (Any_of T v)) with (Some (mkDerive T v)).
    by rewrite dynamic_cast_same.
  - intros T [[d|]] Hd; unfold cast_; cbn [base_]; [|done].
    rewrite dynamic_cast_other; [done|]. by apply Hd.
Qed.

(** ** Semaphore and Result *)

Lemma Semaphore_wait_live (s : Semaphore) :
  isExit_ s = false →
  Semaphore_wait s =
    if 0 <? resLimit_ s
    then Done tt {| resLimit_ := wrap64 (resLimit_ s - 1); isExit_ := false |}
    else Blocked s.
Proof.
  intros He. unfold Semaphore_wait, bind, gets, modify, park, ret.
  rewrite He. destruct (0 <? resLimit_ s); by rewrite ?He.
Qed.

(** [get] on a valid handle is [sem_.wait()] followed by the move out of
    [any_]. *)
Lemma Result_get_valid (r : Result) :
  isValid_ r = true →
  Result_get r =
    match Semaphore_wait (sem_ r) with
    | Done _ s => Done (any_ r) {| any_ := Any_default; sem_ := s;
                                   task_ := task_ r; isValid_ := true |}
    | Blocked s => Blocked {| any_ := any_ r; sem_ := s;
                              task_ := task_ r; isValid_ := true |}
    | Fault f => Fault f
    end.
Proof.
  intros Hv. unfold Result_get, bind, gets, on_sem, modify, ret.
  rewrite Hv; simpl.
  destruct (Semaphore_wait (sem_ r)); simpl; by rewrite ?Hv.
Qed.

(** C3: on an invalid handle [get] returns the [Any] built from the empty
    string at once, whatever the semaphore holds, and leaves the handle
    as it was; on a valid handle it waits on the semaphore (parked while
    the count is 0, one unit taken otherwise) and then returns the stored
    value, leaving the slot empty. *)
Theorem Result_get_spec (r : Result) :
  (isValid_ r = false →
     Result_get r = Done (Any_of const_char_ptr EmptyString) r) ∧
  (isValid_ r = true → isExit_ (sem_ r) = false → resLimit_ (sem_ r) ≤ 0 →
     Result_get r = Blocked r) ∧
  (isValid_ r = true → isExit_ (sem_ r) = false → 0 < resLimit_ (sem_ r) →
     Result_get r =
       Done (any_ r)
            {| any_ := Any_default;
               sem_ := {| resLimit_ := wrap64 (resLimit_ (sem_ r) - 1); isExit_ := false |};
               task_ := task_ r;
               isValid_ := true |}).
Proof.
  split; [|split].
  - intros Hv. unfold Result_get, bind, gets, ret. by rewrite Hv.
  - intros Hv He Hn. rewrite Result_get_valid, Semaphore_wait_live by done.
    destruct (Z.ltb_spec 0 (resLimit_ (sem_ r))); [lia|].
    destruct r as [a s t v]; simpl in *. by subst.
  - intros Hv He Hn. rewrite Result_get_valid, Semaphore_wait_live by done.
    by destruct (Z.ltb_spec 0 (resLimit_ (sem_ r))); [|lia].
Qed.


(** ** Task *)

(** C10: [exec] on a task whose [result_] is null returns normally and
    leaves the whole process state alone: no call of [run()], no write. *)
Theorem Task_exec_unbound (w : World) (this : addr) (t : Task) :
  tasks w !! this = Some t →
  result_ t = None →
  Task_exec this w = Done tt w.
Proof.
  intros Ht Hr. unfold Task_exec, deref_task, bind, gets, ret.
  by rewrite Ht, Hr.
Qed.

(** ** ThreadPool: configuration *)

Ltac run_monad :=
  cbv beta iota delta
    [bind ret gets modify raise park modify_pool emit notify_all
     set_results set_tasks set_generateId_ checkRunningState] in *.

(** C9: while the pool runs, the three setters return without a write;
    [setThreadMaxThreshHold] writes nothing in fixed mode either, started
    or not, and before the start in cached mode it writes the ceiling
    and only the ceiling. *)
Theorem setters_frame (w : World) :
  (isPoolRunning_ (pool w) = true →
     ∀ mode threshhold,
       setPoolMode mode w = Done tt w ∧
       setTaskQueMaxThreshHold threshhold w = Done tt w ∧
       setThreadMaxThreshHold threshhold w = Done tt w) ∧
  (poolMode_ (pool w) = MODE_FIXED →
     ∀ threshhold, setThreadMaxThreshHold threshhold w = Done tt w) ∧
  (isPoolRunning_ (pool w) = false → poolMode_ (pool w) = MODE_CACHED →
     ∀ threshhold,
       setThreadMaxThreshHold threshhold w =
         Done tt (mkWorld (set_threadSizeThreshHold_ threshhold (pool w))
                          (generateId_ w) (tasks w) (results w) (events w))).
Proof.
  unfold setPoolMode, setTaskQueMaxThreshHold, setThreadMaxThreshHold.
  run_monad. split; [|split].
  - intros ->. done.
  - intros Hm n. destruct (isPoolRunning_ (pool w)); [done|].
    rewrite Hm. by destruct w.
  - intros -> Hm n. by rewrite Hm.
Qed.

(** ** ThreadPool: submitTask *)

Lemma Result_ctor_live (w : World) (this a : addr) (t : Task) (v : bool) :
  tasks w !! a = Some t →
  Result_ctor this (Some a) v w =
    Done tt (mkWorld (pool w) (generateId_ w)
               (<[a := Task_setResult (Some this) t]> (tasks w))
               (<[this := {| any_ := Any_default; sem_ := Semaphore_ctor 0;
                             task_ := Some a; isValid_ := v |}]> (results w))
               (events w)).
Proof.
  intros Ht. unfold Result_ctor, deref_task. run_monad. simpl. by rewrite Ht.
Qed.

Lemma Result_ctor_pool (w w' : World) (this : addr) (sp : option addr) (v : bool) :
  Result_ctor this sp v w = Done tt w' →
  pool w' = pool w ∧ generateId_ w' = generateId_ w ∧ events w' = events w ∧
  ∃ a t, sp = Some a ∧ tasks w !! a = Some t.
Proof.
  unfold Result_ctor, deref_task. run_monad. simpl.
  destruct sp as [a|]; simpl; [|by intros [=]].
  destruct (tasks w !! a) as [t|] eqn:Ht; [|by intros [=]].
  intros [= <-]; simpl. eauto 10.
Qed.

Lemma emplace_lookup (k : Z) (v : Thread) (m : gmap Z Thread) :
  emplace k v m !! k = Some (default v (m !! k)).
Proof.
  unfold emplace. destruct (m !! k) eqn:Hk; simpl; [done|].
  by rewrite lookup_insert_eq.
Qed.

(** The state [submitTask] builds before it constructs the returned
    handle, when the queue has room. *)
Lemma submitTask_accept (w : World) (sp : option addr) (ret_slot : addr) :
  queue_size (pool w) < taskQueMaxThreshHold_ (pool w) →
  let p1 := set_taskSize_ incr (set_taskQue_ (λ q, q ++ [sp]) (pool w)) in
  let g := generateId_ w in
  submitTask sp ret_slot w =
    if bool_decide (poolMode_ p1 = MODE_CACHED)
       && (threadIdelSize_ p1 <? taskSize_ p1)
       && (curThreadSize_ p1 <? threadSizeThreshHold_ p1)
    then
      Result_ctor ret_slot sp true
        (mkWorld
           (set_threadIdelSize_ incr
              (set_curThreadSize_ incr (set_threads_ (emplace g (mkThread g)) p1)))
           (incr g) (tasks w) (results w)
           (events w ++ [NotifyAll notEmpty_]
              ++ [Launch (threadId_ (default (mkThread g) (threads_ (pool w) !! g)))]))
    else
      Result_ctor ret_slot sp true
        (mkWorld p1 g (tasks w) (results w) (events w ++ [NotifyAll notEmpty_])).
Proof.
  intros Hq. unfold submitTask. run_monad.
  destruct (Z.ltb_spec (queue_size (pool w)) (taskQueMaxThreshHold_ (pool w))); [|lia].
  simpl.
  destruct (bool_decide (poolMode_ (pool w) = MODE_CACHED)
            && (threadIdelSize_ (pool w) <? incr (taskSize_ (pool w)))
            && (curThreadSize_ (pool w) <? threadSizeThreshHold_ (pool w))); [|done].
  unfold Thread_ctor, threads_at_start, Thread_start, getId. run_monad. simpl.
  rewrite emplace_lookup. simpl. by rewrite <- app_assoc.
Qed.

Lemma submitTask_reject (w : World) (sp : option addr) (ret_slot : addr) :
  taskQueMaxThreshHold_ (pool w) ≤ queue_size (pool w) →
  submitTask sp ret_slot w = Result_ctor ret_slot sp false w.
Proof.
  intros Hq. unfold submitTask. run_monad.
  by destruct (Z.ltb_spec (queue_size (pool w)) (taskQueMaxThreshHold_ (pool w))); [lia|].
Qed.

(** C1: for a live task, [submitTask] always returns, and in one of two
    ways.  With room in the queue the task is appended, [taskSize_]
    counted up and the handle at [ret_slot] valid; with the queue still
    at its bound the handle is invalid and the pool, queue and
    [taskSize_] included, is as before.  No other outcome exists. *)
Theorem submitTask_outcomes (w : World) (sp ret_slot : addr) (t : Task) :
  tasks w !! sp = Some t →
  ∃ w' r,
    submitTask (Some sp) ret_slot w = Done tt w' ∧
    results w' !! ret_slot = Some r ∧
    task_ r = Some sp ∧
    ((queue_size (pool w) < taskQueMaxThreshHold_ (pool w) ∧
      isValid_ r = true ∧
      taskQue_ (pool w') = taskQue_ (pool w) ++ [Some sp] ∧
      taskSize_ (pool w') = incr (taskSize_ (pool w)))
     ∨
     (taskQueMaxThreshHold_ (pool w) ≤ queue_size (pool w) ∧
      isValid_ r = false ∧
      pool w' = pool w)).
Proof.
  intros Ht.
  destruct (Z.lt_ge_cases (queue_size (pool w)) (taskQueMaxThreshHold_ (pool w))) as [Hq|Hq].
  - rewrite submitTask_accept by done. cbv zeta.
    match goal with |- context [if ?c then _ else _] => destruct c end;
      (rewrite (Result_ctor_live _ _ _ t) by done);
      eexists _, _; (split; [reflexivity|]); simpl;
      rewrite lookup_insert_eq; (split; [reflexivity|]); simpl;
      (split; [done|]); left; done.
  - rewrite submitTask_reject by done.
    rewrite (Result_ctor_live _ _ _ t) by done.
    eexists _, _; (split; [reflexivity|]); simpl.
    rewrite lookup_insert_eq. split; [reflexivity|]. simpl. by split; [|right].
Qed.

(** C5: a submission that finds room in the queue adds a worker exactly
    when the pool is cached, the task count (the new task included)
    exceeds the idle count, and the worker count is below the ceiling.
    Then the new [Thread] takes the next identifier, is registered under
    it and launched, and both counters go up by one; otherwise the
    registry, the identifier source, both counters and the launches are
    as before.  The identifier is assumed not to be in the registry
    already, as [generateId_] only counts up. *)
Theorem submitTask_scaling (w w' : World) (sp : option addr) (ret_slot : addr) :
  queue_size (pool w) < taskQueMaxThreshHold_ (pool w) →
  submitTask sp ret_slot w = Done tt w' →
  threads_ (pool w) !! generateId_ w = None →
  let g := generateId_ w in
  let grows :=
    poolMode_ (pool w) = MODE_CACHED ∧
    threadIdelSize_ (pool w) < incr (taskSize_ (pool w)) ∧
    curThreadSize_ (pool w) < threadSizeThreshHold_ (pool w) in
  taskSize_ (pool w') = incr (taskSize_ (pool w)) ∧
  (grows →
     threads_ (pool w') = <[g := mkThread g]> (threads_ (pool w)) ∧
     generateId_ w' = incr g ∧
     events w' = events w ++ [NotifyAll notEmpty_; Launch g] ∧
     curThreadSize_ (pool w') = incr (curThreadSize_ (pool w)) ∧
     threadIdelSize_ (pool w') = incr (threadIdelSize_ (pool w))) ∧
  (¬ grows →
     threads_ (pool w') = threads_ (pool w) ∧
     generateId_ w' = g ∧
     events w' = events w ++ [NotifyAll notEmpty_] ∧
     curThreadSize_ (pool w') = curThreadSize_ (pool w) ∧
     threadIdelSize_ (pool w') = threadIdelSize_ (pool w)).
Proof.
  intros Hq Hs Hfresh g grows. subst g grows.
  rewrite submitTask_accept in Hs by done. cbv zeta in Hs. simpl in Hs.
  destruct (bool_decide (poolMode_ (pool w) = MODE_CACHED)
            && (threadIdelSize_ (pool w) <? incr (taskSize_ (pool w)))
            && (curThreadSize_ (pool w) <? threadSizeThreshHold_ (pool w))) eqn:Hc;
    apply Result_ctor_pool in Hs as (Hp & Hg & He & _); simpl in *;
    rewrite Hp, Hg, He; simpl.
  - split; [done|]. split; [|intros Hn; exfalso; apply Hn].
    + intros _. unfold emplace. rewrite Hfresh. simpl. done.
    + apply andb_true_iff in Hc as [Hc Hc3]. apply andb_true_iff in Hc as [Hc1 Hc2].
      apply bool_decide_eq_true in Hc1. apply Z.ltb_lt in Hc2, Hc3. done.
  - split; [done|]. split; [|done].
    intros (H1 & H2 & H3). exfalso.
    apply andb_false_iff in Hc as [Hc|Hc]; [apply andb_false_iff in Hc as [Hc|Hc]|].
    + by apply bool_decide_eq_false in Hc.
    + apply Z.ltb_ge in Hc. lia.
    + apply Z.ltb_ge in Hc. lia.
Qed.

(** ** ThreadPool: shutdown *)

Lemma registry_size_0 (p : ThreadPool) :
  (Z.of_nat (size (threads_ p)) =? 0) = true ↔ threads_ p = ∅.
Proof.
  rewrite Z.eqb_eq, <- map_size_empty_iff. lia.
Qed.

Lemma dtor_wait_spec (w : World) :
  (threads_ (pool w) = ∅ → dtor_wait w = Done tt w) ∧
  (threads_ (pool w) ≠ ∅ → dtor_wait w = Blocked w).
Proof.
  unfold dtor_wait. run_monad.
  destruct (Z.of_nat (size (threads_ (pool w))) =? 0) eqn:Hs.
  - apply registry_size_0 in Hs. by split.
  - split; [|done]. intros He. apply registry_size_0 in He. congruence.
Qed.


(** ** ThreadPool: the worker count and its limits *)

Lemma same_limits_refl (p : ThreadPool) : same_limits p p.
Proof. by unfold same_limits. Qed.

Lemma Result_ctor_after (w w' : World) (this : addr) (sp : option addr) (v : bool) :
  after (Result_ctor this sp v w) = Some w' → pool w' = pool w.
Proof.
  destruct (Result_ctor this sp v w) as [[] w1|w1|f] eqn:Hr; simpl; intros [= <-].
  - by apply Result_ctor_pool in Hr as (? & _).
  - revert Hr. unfold Result_ctor, deref_task. run_monad. simpl.
    destruct sp as [a|]; simpl; [|done]. by destruct (tasks w !! a).
Qed.

(** [submitTask] keeps the limits, and moves the worker count only by
    one step up that stays below the ceiling. *)
Lemma submitTask_limits (w w' : World) (sp : option addr) (ret_slot : addr) :
  after (submitTask sp ret_slot w) = Some w' →
  same_limits (pool w) (pool w') ∨
  (curThreadSize_ (pool w) < threadSizeThreshHold_ (pool w) ∧
   curThreadSize_ (pool w') = incr (curThreadSize_ (pool w)) ∧
   initThreadSize_ (pool w') = initThreadSize_ (pool w) ∧
   threadSizeThreshHold_ (pool w') = threadSizeThreshHold_ (pool w) ∧
   isPoolRunning_ (pool w') = isPoolRunning_ (pool w)).
Proof.
  destruct (Z.lt_ge_cases (queue_size (pool w)) (taskQueMaxThreshHold_ (pool w))) as [Hq|Hq].
  - rewrite submitTask_accept by done. cbv zeta. simpl.
    destruct (bool_decide (poolMode_ (pool w) = MODE_CACHED)
              && (threadIdelSize_ (pool w) <? incr (taskSize_ (pool w)))
              && (curThreadSize_ (pool w) <? threadSizeThreshHold_ (pool w))) eqn:Hc;
      intros Hp%Result_ctor_after; rewrite Hp; simpl.
    + right. apply andb_true_iff in Hc as [_ Hc%Z.ltb_lt]. done.
    + left. by unfold same_limits.
  - rewrite submitTask_reject by done.
    intros ->%Result_ctor_after. left. apply same_limits_refl.
Qed.

Lemma threadHandler_locked_limits (w w' : World) (threadid : Z) :
  after (forget (threadHandler_locked threadid) w) = Some w' →
  same_limits (pool w) (pool w').
Proof.
  unfold forget, threadHandler_locked. run_monad.
  destruct (queue_size (pool w) =? 0); [destruct (negb (isPoolRunning_ (pool w)))|];
    simpl; try (destruct (0 <? _)); simpl; intros [= <-]; by unfold same_limits.
Qed.

(** A waking worker keeps the limits, and moves the worker count only
    by one step down that stays at or above the initial count. *)
Lemma threadHandler_woken_limits (w w' : World) (threadid : Z) (st : cv_status) (dur : Z) :
  after (forget (threadHandler_woken threadid st dur) w) = Some w' →
  same_limits (pool w) (pool w') ∨
  (initThreadSize_ (pool w) < curThreadSize_ (pool w) ∧
   curThreadSize_ (pool w') = decr (curThreadSize_ (pool w)) ∧
   initThreadSize_ (pool w') = initThreadSize_ (pool w) ∧
   threadSizeThreshHold_ (pool w') = threadSizeThreshHold_ (pool w) ∧
   isPoolRunning_ (pool w') = isPoolRunning_ (pool w)).
Proof.
  intros Ha.
  assert (Hl : after (forget (threadHandler_locked threadid) w) = Some w' →
               same_limits (pool w) (pool w') ∨
               (initThreadSize_ (pool w) < curThreadSize_ (pool w) ∧
                curThreadSize_ (pool w') = decr (curThreadSize_ (pool w)) ∧
                initThreadSize_ (pool w') = initThreadSize_ (pool w) ∧
                threadSizeThreshHold_ (pool w') = threadSizeThreshHold_ (pool w) ∧
                isPoolRunning_ (pool w') = isPoolRunning_ (pool w)))
    by (intros ?; left; by eapply threadHandler_locked_limits).
  revert Ha. unfold forget at 1, threadHandler_woken. unfold forget in Hl.
  unfold bind at 1 2. unfold gets at 1.
  destruct (decide (poolMode_ (pool w) = MODE_CACHED)); [|done].
  destruct st; [done|].
  destruct ((THREAD_IDLE_TIME <=? wrap64 dur)
            && (initThreadSize_ (pool w) <? curThreadSize_ (pool w))) eqn:Hc; [|done].
  run_monad. simpl. intros [= <-]; simpl. right.
  apply andb_true_iff in Hc as [_ Hc%Z.ltb_lt]. done.
Qed.

Lemma Task_exec_after (w w' : World) (this : addr) :
  after (Task_exec this w) = Some w' → pool w' = pool w.
Proof.
  unfold Task_exec, deref_task, on_result, Result_setVal, on_sem, Semaphore_post.
  run_monad. simpl.
  destruct (tasks w !! this) as [t|]; [|done].
  destruct (result_ t) as [res|]; simpl; [|by intros [= <-]].
  destruct (results w !! res) as [r|]; [|done].
  destruct (isExit_ (sem_ r)); simpl; by intros [= <-].
Qed.

Lemma for_int_invariant (P : World → Prop) (body : Z → M World unit) :
  (∀ i w w', body i w = Done tt w' → P w → P w') →
  ∀ left i n w w', for_int left i n body w = Done tt w' → P w → P w'.
Proof.
  intros Hbody. induction left as [|left IH]; intros i n w w'; simpl.
  - by intros [= <-].
  - destruct (i <? n); [|by intros [= <-]].
    unfold bind at 1. destruct (body i w) as [[] w1|w1|f] eqn:Hb; [|done..].
    destruct (i =? INT_MAX); [done|].
    intros Hrest HP. eapply IH; [done|]. by eapply Hbody.
Qed.

(** [start] leaves the pool running with both counts at its argument and
    the ceiling untouched. *)
Lemma start_limits (w w0 : World) (n : Z) :
  start n w = Done tt w0 →
  initThreadSize_ (pool w0) = n ∧ curThreadSize_ (pool w0) = n ∧
  threadSizeThreshHold_ (pool w0) = threadSizeThreshHold_ (pool w) ∧
  isPoolRunning_ (pool w0) = true.
Proof.
  set (P := λ w' : World,
         initThreadSize_ (pool w') = n ∧ curThreadSize_ (pool w') = n ∧
         threadSizeThreshHold_ (pool w') = threadSizeThreshHold_ (pool w) ∧
         isPoolRunning_ (pool w') = true).
  unfold start. run_monad. simpl.
  match goal with |- context [for_int ?l ?i ?m ?b ?x] =>
    destruct (for_int l i m b x) as [[] w1|w1|f] eqn:H1; [|done..]
  end.
  assert (P w1) as HP1.
  { eapply for_int_invariant; [| apply H1 | done].
    intros i wa wb. unfold start_create, Thread_ctor, getId. run_monad.
    by intros [= <-]. }
  intros Hrest. eapply (for_int_invariant P); [| apply Hrest | done].
  intros i wa wb. unfold start_launch, threads_at_start, Thread_start. run_monad.
  destruct (threads_ (pool wa) !! i); [|done]. by intros [= <-].
Qed.

Lemma exec_op_inv (stopping : bool) (n c : Z) (o : op) (ops : list op) (w w' : World) :
  after_start stopping (o :: ops) = true →
  after (exec_op o w) = Some w' →
  lifecycle_inv stopping n c (pool w) →
  ∃ stopping', after_start stopping' ops = true ∧ lifecycle_inv stopping' n c (pool w').
Proof.
  unfold lifecycle_inv.
  intros Hseq Hstep (Hsz & Hi & Hc & Hlo & Hhi & Hrun).
  destruct o; simpl in Hseq, Hstep;
    try (apply andb_true_iff in Hseq as [Hst Hseq];
         first [apply negb_true_iff in Hst | idtac]; subst stopping);
    try discriminate.
  - (* setPoolMode *)
    exists false. split; [done|]. revert Hstep. unfold setPoolMode. run_monad.
    rewrite Hrun by done. by intros [= <-].
  - (* setTaskQueMaxThreshHold *)
    exists false. split; [done|]. revert Hstep. unfold setTaskQueMaxThreshHold. run_monad.
    rewrite Hrun by done. by intros [= <-].
  - (* setThreadMaxThreshHold *)
    exists false. split; [done|]. revert Hstep. unfold setThreadMaxThreshHold. run_monad.
    rewrite Hrun by done. by intros [= <-].
  - (* submitTask *)
    exists false. split; [done|].
    apply submitTask_limits in Hstep as [(E1 & E2 & E3 & E4)|(Hlt & E2 & E1 & E3 & E4)];
      rewrite E1, E2, E3, E4; [done|].
    assert (incr (curThreadSize_ (pool w)) = curThreadSize_ (pool w) + 1) as ->.
    { unfold incr, wrap64. apply Z.mod_small. unfold SIZE_MOD in *. lia. }
    repeat split; try done; unfold SIZE_MOD in *; lia.
  - (* worker: locked section *)
    exists stopping. split; [done|].
    apply threadHandler_locked_limits in Hstep as (E1 & E2 & E3 & E4).
    by rewrite E1, E2, E3, E4.
  - (* worker: wake-up *)
    exists stopping. split; [done|].
    apply threadHandler_woken_limits in Hstep
      as [(E1 & E2 & E3 & E4)|(Hlt & E2 & E1 & E3 & E4)];
      rewrite E1, E2, E3, E4; [done|].
    assert (decr (curThreadSize_ (pool w)) = curThreadSize_ (pool w) - 1) as ->.
    { unfold decr, wrap64. apply Z.mod_small. unfold SIZE_MOD in *. lia. }
    repeat split; try done; lia.
  - (* worker: exec *)
    exists stopping. split; [done|].
    unfold threadHandler_exec in Hstep. destruct task as [t|].
    + apply Task_exec_after in Hstep as ->. done.
    + injection Hstep as <-. done.
  - (* worker: idle again *)
    exists stopping. split; [done|]. injection Hstep as <-. done.
  - (* destructor: stop *)
    exists true. split; [done|]. injection Hstep as <-. simpl. done.
  - (* destructor: locked part *)
    exists true. split; [done|]. revert Hstep. unfold dtor_locked, dtor_wait. run_monad.
    simpl. destruct (Z.of_nat (size (threads_ (pool w))) =? 0); by intros [= <-].
  - (* destructor: wake-up *)
    exists true. split; [done|]. revert Hstep. unfold dtor_wait. run_monad.
    destruct (Z.of_nat (size (threads_ (pool w))) =? 0); by intros [= <-].
Qed.

Lemma run_ops_inv (n c : Z) (ops : list op) :
  ∀ (stopping : bool) (w w' : World),
    after_start stopping ops = true →
    run_ops ops w = Some w' →
    lifecycle_inv stopping n c (pool w) →
    ∃ stopping', lifecycle_inv stopping' n c (pool w').
Proof.
  induction ops as [|o ops IH]; intros stopping w w' Hseq Hrun Hinv.
  - injection Hrun as <-. by exists stopping.
  - simpl in Hrun. destruct (after (exec_op o w)) as [w1|] eqn:Hstep; [|done].
    destruct (exec_op_inv stopping n c o ops w w1) as (st' & Hseq' & Hinv'); [done..|].
    by eapply IH.
Qed.

Lemma run_ops_single (o : op) (w : World) : run_ops [o] w = after (exec_op o w).
Proof. simpl. by destruct (after (exec_op o w)). Qed.

(** C2, as the code has it: after [start(n)], through every setter call,
    submission, worker move (taking a task, retiring, exiting) and the
    destructor, the ceiling and the initial count [n] stay as they were,
    the worker count stays at or above [n], and it stays at or below the
    larger of [n] and the ceiling; so it never exceeds the ceiling when
    [start] was given no more than the ceiling.  [n] and the ceiling are
    [size_t] values. *)
Theorem worker_count_within_limits (w w0 w' : World) (n : Z) (ops : list op) :
  0 ≤ n < SIZE_MOD →
  threadSizeThreshHold_ (pool w) < SIZE_MOD →
  start n w = Done tt w0 →
  after_start false ops = true →
  run_ops ops w0 = Some w' →
  threadSizeThreshHold_ (pool w') = threadSizeThreshHold_ (pool w) ∧
  initThreadSize_ (pool w') = n ∧
  initThreadSize_ (pool w') ≤ curThreadSize_ (pool w') ∧
  curThreadSize_ (pool w') ≤ Z.max n (threadSizeThreshHold_ (pool w')) ∧
  (n ≤ threadSizeThreshHold_ (pool w) →
   curThreadSize_ (pool w') ≤ threadSizeThreshHold_ (pool w')).
Proof.
  intros Hn Hsz Hstart Hseq Hrun.
  apply start_limits in Hstart as (E1 & E2 & E3 & E4).
  destruct (run_ops_inv n (threadSizeThreshHold_ (pool w)) ops false w0 w')
    as (st' & _ & F1 & F2 & F3 & F4 & _); [done..| |].
  - unfold lifecycle_inv. rewrite E1, E2, E3. repeat split; try done; lia.
  - rewrite F1, F2. repeat split; try done. lia.
Qed.

(** ** ThreadPool: start *)

(** The iterations left are exactly [n - i]: more of them change
    nothing, so the count in [start] is not a bound on the loop. *)
Lemma for_int_left (body : Z → M World unit) (n : Z) :
  ∀ left i w, (Z.to_nat (n - i) ≤ left)%nat →
    for_int left i n body w = for_int (Z.to_nat (n - i)) i n body w.
Proof.
  induction left as [|left IH]; intros i w Hle.
  - by replace (Z.to_nat (n - i)) with 0%nat by lia.
  - destruct (Z.ltb_spec i n) as [Hlt|Hge].
    + replace (Z.to_nat (n - i)) with (S (Z.to_nat (n - (i + 1)))) by lia.
      simpl. destruct (Z.ltb_spec i n); [|lia].
      unfold bind. destruct (body i w) as [[] w1|w1|f]; [|done..].
      destruct (i =? INT_MAX); [done|]. apply IH. lia.
    + replace (Z.to_nat (n - i)) with 0%nat by lia.
      simpl. by destruct (Z.ltb_spec i n); [lia|].
Qed.

Lemma for_int_S (body : Z → M World unit) (left : nat) (i n : Z) (w : World) :
  for_int (S left) i n body w =
    if i <? n then
      match body i w with
      | Done _ w1 =>
          if i =? INT_MAX then Fault SignedOverflow else for_int left (i + 1) n body w1
      | Blocked w1 => Blocked w1
      | Fault f => Fault f
      end
    else Done tt w.
Proof.
  simpl. destruct (i <? n); [|done]. unfold bind.
  destruct (body i w); [|done..]. by destruct (i =? INT_MAX).
Qed.

Lemma start_create_step (w : World) :
  start_create w =
    Done tt (mkWorld (set_threads_ (emplace (generateId_ w) (mkThread (generateId_ w))) (pool w))
               (incr (generateId_ w)) (tasks w) (results w) (events w)).
Proof. done. Qed.

Lemma start_launch_step (w : World) (i : Z) (t : Thread) :
  threads_ (pool w) !! i = Some t →
  start_launch i w =
    Done tt (mkWorld (set_threadIdelSize_ incr (pool w)) (generateId_ w)
               (tasks w) (results w) (events w ++ [Launch (threadId_ t)])).
Proof.
  intros Ht. unfold start_launch, threads_at_start, Thread_start. run_monad.
  by rewrite Ht.
Qed.

Lemma start_create_loop (n : Z) :
  n ≤ INT_MAX →
  ∀ left i w,
    left = Z.to_nat (n - i) → 0 ≤ i ≤ n →
    generateId_ w = i →
    holds_upto (threads_ (pool w)) i →
    ∃ T, for_int left i n (λ _, start_create) w =
           Done tt (mkWorld (set_threads_ (λ _, T) (pool w)) n
                      (tasks w) (results w) (events w)) ∧
         holds_upto T n.
Proof.
  intros Hmax. induction left as [|left IH]; intros i w Hleft Hi Hg HT.
  - assert (i = n) as -> by lia. exists (threads_ (pool w)). split; [|done].
    simpl. unfold ret. f_equal. destruct w as [[] ?]; simpl in *. by subst.
  - rewrite for_int_S, start_create_step.
    destruct (Z.ltb_spec i n) as [Hlt|]; [|lia].
    destruct (Z.eqb_spec i INT_MAX) as [|_]; [lia|].
    rewrite Hg.
    assert (Hin : incr i = i + 1).
    { unfold incr, wrap64. apply Z.mod_small. unfold SIZE_MOD, INT_MAX in *. lia. }
    rewrite Hin.
    match goal with |- context [for_int left (i + 1) n _ ?w1] =>
      destruct (IH (i + 1) w1) as (T & -> & HT'); [lia|lia|done| |]
    end.
    + intros k. simpl. unfold emplace. rewrite HT.
      rewrite bool_decide_eq_false_2 by lia.
      destruct (decide (k = i)) as [->|Hne].
      * rewrite lookup_insert_eq. by rewrite bool_decide_eq_true_2 by lia.
      * rewrite lookup_insert_ne, HT by done.
        rewrite (bool_decide_ext (0 ≤ k < i) (0 ≤ k < i + 1)) by lia. done.
    + exists T. split; [|done]. simpl. f_equal.
Qed.

Lemma start_launch_loop (n : Z) :
  n ≤ INT_MAX →
  ∀ left i w,
    left = Z.to_nat (n - i) → 0 ≤ i ≤ n →
    (∀ k, 0 ≤ k < n → threads_ (pool w) !! k = Some (mkThread k)) →
    0 ≤ threadIdelSize_ (pool w) → threadIdelSize_ (pool w) + (n - i) < SIZE_MOD →
    for_int left i n start_launch w =
      Done tt (mkWorld (set_threadIdelSize_ (λ x, x + (n - i)) (pool w)) (generateId_ w)
                 (tasks w) (results w) (events w ++ (Launch <$> seqZ i (n - i)))).
Proof.
  intros Hmax. induction left as [|left IH]; intros i w Hleft Hi HT Hlo Hhi.
  - assert (i = n) as -> by lia. simpl. unfold ret. f_equal.
    rewrite Z.sub_diag. simpl. rewrite app_nil_r.
    destruct w as [[] ?]; simpl. unfold set_threadIdelSize_; simpl.
    by rewrite Z.add_0_r.
  - rewrite for_int_S, (start_launch_step w i (mkThread i)) by (apply HT; lia).
    destruct (Z.ltb_spec i n) as [Hlt|]; [|lia].
    destruct (Z.eqb_spec i INT_MAX) as [|_]; [lia|].
    assert (Hin : incr (threadIdelSize_ (pool w)) = threadIdelSize_ (pool w) + 1).
    { unfold incr, wrap64. apply Z.mod_small. lia. }
    rewrite IH; simpl; rewrite ?Hin; [|lia|lia|done|lia|lia].
    f_equal. f_equal.
    + unfold set_threadIdelSize_; simpl. rewrite Hin. f_equal. lia.
    + rewrite (seqZ_cons i (n - i)) by lia. rewrite <- app_assoc. simpl.
      replace (Z.succ i) with (i + 1) by lia.
      by replace (Z.pred (n - i)) with (n - (i + 1)) by lia.
Qed.

Lemma registry_holds_size (T : gmap Z Thread) (n : Z) :
  holds_upto T n → size T = Z.to_nat n.
Proof.
  unfold holds_upto. intros HT. rewrite <- size_dom.
  assert (dom T = list_to_set (seqZ 0 n)) as ->.
  { apply set_eq. intros k.
    rewrite elem_of_dom, elem_of_list_to_set, elem_of_seqZ, HT.
    case_bool_decide; split; intros H1; try done; try lia.
    all: try by destruct H1. }
  rewrite size_list_to_set by apply NoDup_seqZ. apply length_seqZ.
Qed.

(** [start(n)] in a process that has built no [Thread] yet, on a pool
    with an empty registry and no idle worker counted: it returns with
    the pool running, [n] as both counts, the workers [0 .. n-1] in the
    registry and launched in that order, and [n] idle workers. *)
Lemma start_first_pool (w : World) (n : Z) :
  0 ≤ n ≤ INT_MAX →
  generateId_ w = 0 →
  threads_ (pool w) = ∅ →
  threadIdelSize_ (pool w) = 0 →
  ∃ w', start n w = Done tt w' ∧
        isPoolRunning_ (pool w') = true ∧
        initThreadSize_ (pool w') = n ∧
        curThreadSize_ (pool w') = n ∧
        threadIdelSize_ (pool w') = n ∧
        holds_upto (threads_ (pool w')) n ∧
        size (threads_ (pool w')) = Z.to_nat n ∧
        generateId_ w' = n ∧
        events w' = events w ++ (Launch <$> seqZ 0 n).
Proof.
  intros Hn Hg HT Hidle. unfold start. run_monad. simpl.
  match goal with |- context [for_int _ 0 n (λ _, start_create) ?w1] =>
    destruct (start_create_loop n (proj2 Hn) (Z.to_nat n) 0 w1) as (T & -> & HT');
      [lia|lia|done|..]
  end.
  { intros k. simpl. rewrite HT, lookup_empty. by rewrite bool_decide_eq_false_2 by lia. }
  rewrite (start_launch_loop n (proj2 Hn)); simpl; rewrite ?Hidle;
    [|lia|lia| |lia|unfold SIZE_MOD, INT_MAX in *; lia].
  - eexists. split; [reflexivity|]. simpl. rewrite Hidle, Z.sub_0_r.
    repeat split; try done. by apply registry_holds_size.
  - intros k Hk. rewrite HT'. by rewrite bool_decide_eq_true_2 by lia.
Qed.

(** * Further properties of the code *)

(** ** Semaphore *)

Lemma incr_small (x : Z) : 0 ≤ x → x + 1 < SIZE_MOD → incr x = x + 1.
Proof. intros. unfold incr, wrap64. apply Z.mod_small. lia. Qed.

Lemma decr_small (x : Z) : 0 < x → x ≤ SIZE_MOD → decr x = x - 1.
Proof. intros. unfold decr, wrap64. apply Z.mod_small. lia. Qed.

Lemma decr_incr (x : Z) : 0 ≤ x < SIZE_MOD → decr (incr x) = x.
Proof.
  intros Hx. unfold decr, incr, wrap64.
  rewrite Zminus_mod_idemp_l. replace (x + 1 - 1) with x by lia.
  by apply Z.mod_small.
Qed.

Lemma incr_decr (x : Z) : 0 ≤ x < SIZE_MOD → incr (decr x) = x.
Proof.
  intros Hx. unfold decr, incr, wrap64.
  rewrite Zplus_mod_idemp_l. replace (x - 1 + 1) with x by lia.
  by apply Z.mod_small.
Qed.

(** X1: on a live semaphore a [post()] followed by a [wait()] goes
    through without parking and leaves the count where it was, whatever
    the count; only at the largest [size_t] does the [post()] wrap the
    count to 0, and the [wait()] parks. *)
Theorem Semaphore_post_wait (s : Semaphore) :
  isExit_ s = false →
  0 ≤ resLimit_ s < SIZE_MOD →
  (Semaphore_post >> Semaphore_wait) s =
    if resLimit_ s =? SIZE_MOD - 1
    then Blocked {| resLimit_ := 0; isExit_ := false |}
    else Done tt s.
Proof.
  destruct s as [c e]. cbn [isExit_ resLimit_]. intros -> Hc.
  unfold Semaphore_post, Semaphore_wait. run_monad. cbn [isExit_ resLimit_].
  destruct (Z.eqb_spec c (SIZE_MOD - 1)) as [Hmax|Hne].
  - assert (wrap64 (c + 1) = 0) as -> by (rewrite Hmax; by vm_compute).
    done.
  - assert (wrap64 (c + 1) = c + 1) as -> by (apply Z.mod_small; lia).
    destruct (Z.ltb_spec 0 (c + 1)); [|lia].
    cbn [isExit_ resLimit_]. do 2 f_equal.
    replace (c + 1 - 1) with c by lia. apply Z.mod_small. lia.
Qed.

(** Once the destructor has run, [wait()] returns at once even at count 0
    and [post()] adds nothing: neither touches the count. *)
Lemma Semaphore_after_dtor (s : Semaphore) :
  (Semaphore_dtor >> Semaphore_wait) s =
    Done tt {| resLimit_ := resLimit_ s; isExit_ := true |} ∧
  (Semaphore_dtor >> Semaphore_post) s =
    Done tt {| resLimit_ := resLimit_ s; isExit_ := true |}.
Proof. done. Qed.

(** ** Result *)

(** X2: on a valid handle with a live semaphore, [setVal(v)] followed by
    [get()] returns [v] without parking and leaves the slot empty and the
    count as before; with the count at 0 a second [get()] parks. *)
Theorem Result_setVal_get (r : Result) (v : Any) :
  isValid_ r = true →
  isExit_ (sem_ r) = false →
  0 ≤ resLimit_ (sem_ r) → resLimit_ (sem_ r) + 1 < SIZE_MOD →
  let r' := {| any_ := Any_default; sem_ := sem_ r; task_ := task_ r; isValid_ := true |} in
  (Result_setVal v >> Result_get) r = Done v r' ∧
  (resLimit_ (sem_ r) = 0 → Result_get r' = Blocked r').
Proof.
  destruct r as [a [c e] t valid]. cbn [isValid_ sem_ isExit_ resLimit_ task_].
  intros -> -> Hlo Hhi. split.
  - unfold Result_setVal, Result_get, on_sem, Semaphore_post, Semaphore_wait.
    run_monad. cbn [isValid_ sem_ isExit_ resLimit_ task_ any_ negb].
    assert (wrap64 (c + 1) = c + 1) as -> by (apply Z.mod_small; lia).
    destruct (Z.ltb_spec 0 (c + 1)); [|lia].
    cbn [isValid_ sem_ isExit_ resLimit_ task_ any_].
    do 3 f_equal. replace (c + 1 - 1) with c by lia. apply Z.mod_small. lia.
  - intros ->. done.
Qed.

(** X3: what [get()] returns on an invalid handle casts to the empty
    string at pointer-to-const-char and throws the type-mismatch message at
    every other type. *)
Theorem Result_get_invalid_cast (r : Result) :
  isValid_ r = false →
  ∃ a, Result_get r = Done a r ∧
       cast_ const_char_ptr a = Returns EmptyString ∧
       ∀ u, cast_ (user_type u) a = Throws "type is unmatch!".
Proof.
  intros Hv. exists (Any_of const_char_ptr EmptyString). split; [|split].
  - unfold Result_get. run_monad. by rewrite Hv.
  - unfold cast_. change (base_ (Any_of const_char_ptr EmptyString))
      with (Some (mkDerive const_char_ptr EmptyString)).
    by rewrite dynamic_cast_same.
  - intros u. unfold cast_. cbn [base_ Any_of].
    by rewrite dynamic_cast_other.
Qed.

(** ** From the submission to the value *)

(** The handle [Result_ctor] builds. *)
Local Abbreviation fresh_handle sp valid :=
  {| any_ := Any_default; sem_ := Semaphore_ctor 0; task_ := Some sp; isValid_ := valid |}.

Lemma submitTask_accept_shape (w : World) (sp ret_slot : addr) (t : Task) :
  queue_size (pool w) < taskQueMaxThreshHold_ (pool w) →
  tasks w !! sp = Some t →
  ∃ p1 g1 ev1,
    submitTask (Some sp) ret_slot w =
      Done tt (mkWorld p1 g1 (<[sp := Task_setResult (Some ret_slot) t]> (tasks w))
                 (<[ret_slot := fresh_handle sp true]> (results w)) ev1) ∧
    taskQue_ p1 = taskQue_ (pool w) ++ [Some sp] ∧
    taskQueMaxThreshHold_ p1 = taskQueMaxThreshHold_ (pool w).
Proof.
  intros Hq Ht. rewrite submitTask_accept by done. cbv zeta.
  match goal with |- context [if ?c then _ else _] => destruct c end;
    rewrite (Result_ctor_live _ _ _ t) by done; eexists _, _, _;
    (split; [reflexivity|]); done.
Qed.

Lemma threadHandler_locked_take (w : World) (threadid : Z) (task : option addr)
    (rest : list (option addr)) :
  taskQue_ (pool w) = task :: rest →
  threadHandler_locked threadid w =
    Done (handler_got task)
      (mkWorld (set_taskSize_ decr (set_taskQue_ (drop 1) (set_threadIdelSize_ decr (pool w))))
         (generateId_ w) (tasks w) (results w)
         (events w ++ (if rest is [] then [] else [NotifyAll notEmpty_])
            ++ [NotifyAll notFull_])).
Proof.
  intros Hq. unfold threadHandler_locked, queue_size. run_monad. rewrite Hq.
  cbn [length Z.of_nat Z.eqb head default]. simpl. rewrite Hq.
  destruct rest as [|task' rest]; simpl; rewrite <- ?app_assoc; done.
Qed.

Lemma Task_exec_bound (w : World) (sp res : addr) (t : Task) (r : Result) :
  tasks w !! sp = Some t →
  result_ t = Some res →
  results w !! res = Some r →
  isExit_ (sem_ r) = false →
  Task_exec sp w =
    Done tt (mkWorld (pool w) (generateId_ w) (tasks w)
               (<[res := {| any_ := run t;
                            sem_ := {| resLimit_ := incr (resLimit_ (sem_ r)); isExit_ := false |};
                            task_ := task_ r; isValid_ := isValid_ r |}]> (results w))
               (events w ++ [Run sp])).
Proof.
  intros Ht Hres Hr He.
  unfold Task_exec, deref_task, on_result, Result_setVal, on_sem, Semaphore_post.
  run_monad. rewrite Ht, Hres. cbn [results events pool generateId_ tasks].
  rewrite Hr. cbn [sem_ any_ task_ isValid_]. rewrite He.
  cbn [sem_ any_ task_ isValid_ isExit_ resLimit_]. by rewrite He.
Qed.

Lemma on_result_get_ready (w : World) (res : addr) (r : Result) :
  results w !! res = Some r →
  isValid_ r = true → isExit_ (sem_ r) = false → 0 < resLimit_ (sem_ r) →
  on_result res Result_get w =
    Done (any_ r)
      (mkWorld (pool w) (generateId_ w) (tasks w)
         (<[res := {| any_ := Any_default;
                      sem_ := {| resLimit_ := decr (resLimit_ (sem_ r)); isExit_ := false |};
                      task_ := task_ r; isValid_ := true |}]> (results w))
         (events w)).
Proof.
  intros Hr Hv He Hc. unfold on_result. rewrite Hr.
  rewrite Result_get_valid, Semaphore_wait_live by done.
  by destruct (Z.ltb_spec 0 (resLimit_ (sem_ r))); [|lia].
Qed.

Lemma on_result_get_waiting (w : World) (res : addr) (r : Result) :
  results w !! res = Some r →
  isValid_ r = true → isExit_ (sem_ r) = false → resLimit_ (sem_ r) ≤ 0 →
  on_result res Result_get w = Blocked w.
Proof.
  intros Hr Hv He Hc. unfold on_result. rewrite Hr.
  rewrite Result_get_valid, Semaphore_wait_live by done.
  destruct (Z.ltb_spec 0 (resLimit_ (sem_ r))); [lia|].
  f_equal. destruct w as [p g ts rs ev]; simpl in *. f_equal.
  rewrite <- (insert_id rs res r) at 2 by done. f_equal.
  destruct r as [a [c e] tk v]; simpl in *. by subst.
Qed.

Lemma on_result_get_invalid (w : World) (res : addr) (r : Result) :
  results w !! res = Some r →
  isValid_ r = false →
  on_result res Result_get w = Done (Any_of const_char_ptr EmptyString) w.
Proof.
  intros Hr Hv. unfold on_result. rewrite Hr.
  unfold Result_get. run_monad. rewrite Hv. cbn [negb].
  f_equal. destruct w as [p g ts rs ev]; simpl in *. f_equal.
  by apply insert_id.
Qed.

(** X4: a task submitted to a pool with an empty queue and a bound
    of at least 1 is accepted; [get()] on its handle parks until a worker
    has run it; the next worker through its locked section receives this
    task, [exec()] calls [run()] once, and [get()] then returns the value
    [run()] produced. *)
Theorem submit_take_exec_get (w : World) (sp ret_slot threadid : Z) (t : Task) :
  tasks w !! sp = Some t →
  taskQue_ (pool w) = [] →
  0 < taskQueMaxThreshHold_ (pool w) →
  ∃ w1 w2 w3 w4,
    submitTask (Some sp) ret_slot w = Done tt w1 ∧
    on_result ret_slot Result_get w1 = Blocked w1 ∧
    threadHandler_locked threadid w1 = Done (handler_got (Some sp)) w2 ∧
    threadHandler_exec (Some sp) w2 = Done tt w3 ∧
    events w3 = events w2 ++ [Run sp] ∧
    on_result ret_slot Result_get w3 = Done (run t) w4 ∧
    taskQue_ (pool w4) = [].
Proof.
  intros Ht Hq Hbound.
  destruct (submitTask_accept_shape w sp ret_slot t) as (p1 & g1 & ev1 & Hs & Hq1 & _);
    [unfold queue_size; rewrite Hq; simpl; lia|done|].
  rewrite Hq in Hq1. simpl in Hq1.
  eexists _, _, _, _. split; [exact Hs|].
  split.
  { apply (on_result_get_waiting _ _ (fresh_handle sp true)); simpl; try done.
    by rewrite lookup_insert_eq. }
  split.
  { by apply (threadHandler_locked_take _ _ (Some sp) []). }
  split.
  { unfold threadHandler_exec.
    apply (Task_exec_bound _ _ ret_slot (Task_setResult (Some ret_slot) t)
             (fresh_handle sp true)); simpl; try done; by rewrite lookup_insert_eq. }
  split; [done|].
  split.
  { match goal with |- on_result _ _ ?w3 = _ =>
      apply (on_result_get_ready w3 ret_slot
               {| any_ := run t; sem_ := {| resLimit_ := incr 0; isExit_ := false |};
                  task_ := Some sp; isValid_ := true |})
    end; [simpl; by rewrite lookup_insert_eq|done|done|by vm_compute]. }
  simpl. by rewrite Hq1.
Qed.


(** X6: a task object submitted twice is bound to the handle of the
    second submission only: when a worker runs the first queue entry, the
    value goes to the second handle, and [get()] on the first handle is
    still parked. *)
Theorem resubmitted_task_rebinds (w : World) (sp ret1 ret2 threadid : Z) (t : Task) :
  tasks w !! sp = Some t →
  taskQue_ (pool w) = [] →
  1 < taskQueMaxThreshHold_ (pool w) →
  ret1 ≠ ret2 →
  ∃ w1 w2 w3 w4 w5,
    submitTask (Some sp) ret1 w = Done tt w1 ∧
    submitTask (Some sp) ret2 w1 = Done tt w2 ∧
    threadHandler_locked threadid w2 = Done (handler_got (Some sp)) w3 ∧
    threadHandler_exec (Some sp) w3 = Done tt w4 ∧
    on_result ret1 Result_get w4 = Blocked w4 ∧
    on_result ret2 Result_get w4 = Done (run t) w5.
Proof.
  intros Ht Hq Hbound Hne.
  destruct (submitTask_accept_shape w sp ret1 t) as (p1 & g1 & ev1 & Hs1 & Hq1 & Hb1);
    [unfold queue_size; rewrite Hq; simpl; lia|done|].
  rewrite Hq in Hq1. simpl in Hq1.
  match type of Hs1 with _ = Done tt ?w1 =>
    destruct (submitTask_accept_shape w1 sp ret2 (Task_setResult (Some ret1) t))
      as (p2 & g2 & ev2 & Hs2 & Hq2 & _)
  end.
  { unfold queue_size. simpl. rewrite Hq1, Hb1. simpl. lia. }
  { simpl. by rewrite lookup_insert_eq. }
  simpl in Hs2, Hq2. rewrite Hq1 in Hq2. simpl in Hq2.
  eexists _, _, _, _, _. split; [exact Hs1|]. split; [exact Hs2|].
  split.
  { by apply (threadHandler_locked_take _ _ (Some sp) [Some sp]). }
  split.
  { unfold threadHandler_exec.
    apply (Task_exec_bound _ _ ret2
             (Task_setResult (Some ret2) (Task_setResult (Some ret1) t))
             (fresh_handle sp true)); simpl; try done; by rewrite lookup_insert_eq. }
  split.
  { apply (on_result_get_waiting _ _ (fresh_handle sp true)); simpl; try done.
    rewrite lookup_insert_ne by done. rewrite lookup_insert_ne by done.
    by rewrite lookup_insert_eq. }
  match goal with |- on_result _ _ ?w4 = _ =>
    apply (on_result_get_ready w4 ret2
             {| any_ := run t; sem_ := {| resLimit_ := incr 0; isExit_ := false |};
                task_ := Some sp; isValid_ := true |})
  end; [simpl; by rewrite lookup_insert_eq|done|done|by vm_compute].
Qed.

(** X7: after a handle has been move-constructed from the handle its
    task is bound to, the task still delivers to the source: [exec()]
    succeeds, [get()] on the new handle parks, and [get()] on the source
    returns the empty-string sentinel, so the value reaches nobody. *)
Theorem moved_handle_misses_value (w : World) (sp this other : Z) (t : Task) (r : Result) :
  tasks w !! sp = Some t →
  result_ t = Some other →
  results w !! other = Some r →
  isValid_ r = true →
  isExit_ (sem_ r) = false →
  this ≠ other →
  ∃ w1 w2,
    Result_move_ctor this other w = Done tt w1 ∧
    Task_exec sp w1 = Done tt w2 ∧
    on_result this Result_get w2 = Blocked w2 ∧
    on_result other Result_get w2 = Done (Any_of const_char_ptr EmptyString) w2.
Proof.
  intros Ht Hres Hr Hv He Hne.
  eexists _, _. split.
  { unfold Result_move_ctor. run_monad. rewrite Hr. reflexivity. }
  split.
  { apply (Task_exec_bound _ _ other t (Result_move r).2); simpl; try done.
    rewrite lookup_insert_ne by done. by rewrite lookup_insert_eq. }
  split.
  - apply (on_result_get_waiting _ _ (Result_move r).1); simpl; try done.
    rewrite lookup_insert_ne by done. by rewrite lookup_insert_eq.
  - match goal with |- on_result other _ ?w2 = _ =>
      apply (on_result_get_invalid w2 other
               {| any_ := run t;
                  sem_ := {| resLimit_ := incr (resLimit_ (sem_ r)); isExit_ := false |};
                  task_ := None; isValid_ := false |})
    end; simpl; [|done]. by rewrite lookup_insert_eq.
Qed.

(** ** What every reachable state keeps *)

Lemma for_int_after_invariant (P : World → Prop) (body : Z → M World unit) :
  (∀ i w w', after (body i w) = Some w' → P w → P w') →
  ∀ left i n w w', after (for_int left i n body w) = Some w' → P w → P w'.
Proof.
  intros Hbody. induction left as [|left IH]; intros i n w w'; simpl.
  - by intros [= <-].
  - destruct (i <? n); [|by intros [= <-]].
    unfold bind at 1. destruct (body i w) as [[] w1|w1|f] eqn:Hb.
    + destruct (i =? INT_MAX); [done|].
      intros Hrest HP. eapply IH; [done|]. eapply Hbody; [|done]. by rewrite Hb.
    + simpl. intros [= <-] HP. eapply Hbody; [|done]. by rewrite Hb.
    + done.
Qed.

Lemma consistent_push (q : list (option addr)) (x : option addr) (n : Z) :
  n = wrap64 (Z.of_nat (length q)) →
  incr n = wrap64 (Z.of_nat (length (q ++ [x]))).
Proof.
  intros ->. rewrite length_app. simpl. unfold incr, wrap64.
  rewrite Zplus_mod_idemp_l. f_equal. lia.
Qed.

Lemma consistent_pop (q : list (option addr)) (n : Z) :
  q ≠ [] →
  n = wrap64 (Z.of_nat (length q)) →
  decr n = wrap64 (Z.of_nat (length (drop 1 q))).
Proof.
  intros Hq ->. destruct q as [|x q]; [done|]. simpl. rewrite drop_0.
  unfold decr, wrap64. rewrite Zminus_mod_idemp_l. f_equal. lia.
Qed.

Lemma registry_emplace (m : gmap Z Thread) (g : Z) :
  (∀ k t, m !! k = Some t → threadId_ t = k) →
  ∀ k t, emplace g (mkThread g) m !! k = Some t → threadId_ t = k.
Proof.
  intros Hm k t. unfold emplace. destruct (m !! g) eqn:Hg; [apply Hm|].
  destruct (decide (g = k)) as [->|Hne].
  - rewrite lookup_insert_eq. by intros [= <-].
  - rewrite lookup_insert_ne by done. apply Hm.
Qed.

Lemma registry_delete (m : gmap Z Thread) (g : Z) :
  (∀ k t, m !! k = Some t → threadId_ t = k) →
  ∀ k t, delete g m !! k = Some t → threadId_ t = k.
Proof.
  intros Hm k t. destruct (decide (g = k)) as [->|Hne].
  - by rewrite lookup_delete_eq.
  - rewrite lookup_delete_ne by done. apply Hm.
Qed.

Lemma threadHandler_locked_consistent (w w' : World) (threadid : Z) :
  after (forget (threadHandler_locked threadid) w) = Some w' →
  pool_consistent (pool w) → pool_consistent (pool w').
Proof.
  unfold pool_consistent. intros Hstep [Hsize Hreg].
  revert Hstep. unfold forget, threadHandler_locked. run_monad.
  destruct (Z.eqb_spec (queue_size (pool w)) 0) as [H0|Hne].
  - destruct (negb (isPoolRunning_ (pool w))); simpl; intros [= <-]; simpl;
      [|done]. split; [done|]. by apply registry_delete.
  - simpl. destruct (0 <? _); simpl; intros [= <-]; simpl; unfold queue_size; simpl;
      (split; [|done]); apply consistent_pop; try done;
      intros Hnil; apply Hne; unfold queue_size; by rewrite Hnil.
Qed.

Lemma threadHandler_woken_consistent (w w' : World) (threadid : Z) (st : cv_status) (dur : Z) :
  after (forget (threadHandler_woken threadid st dur) w) = Some w' →
  pool_consistent (pool w) → pool_consistent (pool w').
Proof.
  intros Hstep Hw.
  assert (Hl : after (forget (threadHandler_locked threadid) w) = Some w' →
               pool_consistent (pool w'))
    by (intros ?; by eapply threadHandler_locked_consistent).
  revert Hstep. unfold forget at 1, threadHandler_woken. unfold forget in Hl.
  unfold bind at 1 2. unfold gets at 1.
  destruct (decide (poolMode_ (pool w) = MODE_CACHED)); [|done].
  destruct st; [done|].
  destruct ((THREAD_IDLE_TIME <=? wrap64 dur)
            && (initThreadSize_ (pool w) <? curThreadSize_ (pool w))); [|done].
  run_monad. simpl. intros [= <-]; simpl.
  destruct Hw as [Hsize Hreg]. split; [done|]. simpl. by apply registry_delete.
Qed.

Lemma exec_op_consistent (o : op) (w w' : World) :
  after (exec_op o w) = Some w' →
  pool_consistent (pool w) → pool_consistent (pool w').
Proof.
  intros Hstep Hw. pose proof Hw as [Hsize Hreg].
  destruct o; simpl in Hstep.
  - (* setPoolMode *)
    revert Hstep. unfold setPoolMode. run_monad.
    destruct (isPoolRunning_ (pool w)); by intros [= <-].
  - (* setTaskQueMaxThreshHold *)
    revert Hstep. unfold setTaskQueMaxThreshHold. run_monad.
    destruct (isPoolRunning_ (pool w)); by intros [= <-].
  - (* setThreadMaxThreshHold *)
    revert Hstep. unfold setThreadMaxThreshHold. run_monad.
    destruct (isPoolRunning_ (pool w)); [by intros [= <-]|].
    destruct (decide (poolMode_ (pool w) = MODE_CACHED)); by intros [= <-].
  - (* start *)
    revert Hstep. unfold start. run_monad. simpl.
    set (P := λ w1 : World, pool_consistent (pool w1)).
    assert (Hcreate : ∀ (i : Z) (wa wb : World),
               after ((λ _ : Z, start_create) i wa) = Some wb → P wa → P wb).
    { intros i wa wb. unfold start_create, Thread_ctor, getId. run_monad.
      intros [= <-] [Ha Hb]. split; [done|]. simpl. by apply registry_emplace. }
    assert (Hlaunch : ∀ (i : Z) (wa wb : World),
               after (start_launch i wa) = Some wb → P wa → P wb).
    { intros i wa wb. unfold start_launch, threads_at_start, Thread_start. run_monad.
      destruct (threads_ (pool wa) !! i); [|done]. by intros [= <-]. }
    match goal with |- context [for_int ?l ?i ?m (λ _, start_create) ?x] =>
      destruct (for_int l i m (λ _, start_create) x) as [[] w1|w1|f] eqn:H1;
        [|simpl; intros [= <-]|done];
        (assert (P w1) as HP1;
         [eapply (for_int_after_invariant P _ Hcreate); [by rewrite H1|done]|])
    end.
    + intros Hrest. by eapply (for_int_after_invariant P _ Hlaunch).
    + done.
  - (* submitTask *)
    destruct (Z.lt_ge_cases (queue_size (pool w)) (taskQueMaxThreshHold_ (pool w))) as [Hq|Hq].
    + rewrite submitTask_accept in Hstep by done. cbv zeta in Hstep.
      match type of Hstep with context [if ?c then _ else _] => destruct c end;
        apply Result_ctor_after in Hstep as ->; simpl; unfold queue_size; simpl;
        (split; [by apply consistent_push|]); [by apply registry_emplace|done].
    + rewrite submitTask_reject in Hstep by done.
      by apply Result_ctor_after in Hstep as ->.
  - by eapply threadHandler_locked_consistent.
  - by eapply threadHandler_woken_consistent.
  - (* worker: exec *)
    unfold threadHandler_exec in Hstep. destruct task as [t|].
    + by apply Task_exec_after in Hstep as ->.
    + by injection Hstep as <-.
  - by injection Hstep as <-.
  - by injection Hstep as <-.
  - revert Hstep. unfold dtor_locked, dtor_wait. run_monad.
    simpl. destruct (Z.of_nat (size (threads_ (pool w))) =? 0); by intros [= <-].
  - revert Hstep. unfold dtor_wait. run_monad.
    destruct (Z.of_nat (size (threads_ (pool w))) =? 0); by intros [= <-].
Qed.

Lemma run_ops_consistent (ops : list op) :
  ∀ w w', run_ops ops w = Some w' →
          pool_consistent (pool w) → pool_consistent (pool w').
Proof.
  induction ops as [|o ops IH]; intros w w' Hrun Hw.
  - by injection Hrun as <-.
  - simpl in Hrun. destruct (after (exec_op o w)) as [w1|] eqn:Hstep; [|done].
    eapply IH; [done|]. by eapply exec_op_consistent.
Qed.

(** X8: in every state the pool reaches from its construction,
    through whatever calls and worker moves, [taskSize_] is the length of
    the task queue (as a [size_t]). *)
Theorem taskSize_mirrors_queue (w : World) :
  reachable w → taskSize_ (pool w) = wrap64 (queue_size (pool w)).
Proof.
  intros (ts & ops & Hrun).
  apply (run_ops_consistent ops (World_init ts) w Hrun). by split.
Qed.

(** X9: in every state the pool reaches from its construction,
    each entry of the registry holds the worker whose identifier is the
    entry's key. *)
Theorem registry_keyed_by_id (w : World) (k : Z) (t : Thread) :
  reachable w → threads_ (pool w) !! k = Some t → getId t = k.
Proof.
  intros (ts & ops & Hrun).
  destruct (run_ops_consistent ops (World_init ts) w Hrun) as [_ Hreg]; [by split|].
  apply Hreg.
Qed.

(** ** The queue and the configuration after the start *)

Lemma queue_size_drop (p : ThreadPool) :
  queue_size (set_taskQue_ (drop 1) p) ≤ queue_size p.
Proof. unfold queue_size. simpl. rewrite length_drop. lia. Qed.

Lemma threadHandler_locked_queue (w w' : World) (threadid : Z) :
  after (forget (threadHandler_locked threadid) w) = Some w' →
  poolMode_ (pool w') = poolMode_ (pool w) ∧
  taskQueMaxThreshHold_ (pool w') = taskQueMaxThreshHold_ (pool w) ∧
  queue_size (pool w') ≤ queue_size (pool w) ∧
  isPoolRunning_ (pool w') = isPoolRunning_ (pool w).
Proof.
  unfold forget, threadHandler_locked. run_monad.
  destruct (queue_size (pool w) =? 0); [destruct (negb (isPoolRunning_ (pool w)))|];
    simpl; try (destruct (0 <? _)); simpl; intros [= <-]; simpl;
    repeat split; try done; unfold queue_size; simpl; rewrite length_drop; lia.
Qed.

Lemma threadHandler_woken_queue (w w' : World) (threadid : Z) (st : cv_status) (dur : Z) :
  after (forget (threadHandler_woken threadid st dur) w) = Some w' →
  poolMode_ (pool w') = poolMode_ (pool w) ∧
  taskQueMaxThreshHold_ (pool w') = taskQueMaxThreshHold_ (pool w) ∧
  queue_size (pool w') ≤ queue_size (pool w) ∧
  isPoolRunning_ (pool w') = isPoolRunning_ (pool w).
Proof.
  intros Hstep.
  pose proof (threadHandler_locked_queue w w' threadid) as Hl.
  revert Hstep. unfold forget at 1, threadHandler_woken. unfold forget in Hl.
  unfold bind at 1 2. unfold gets at 1.
  destruct (decide (poolMode_ (pool w) = MODE_CACHED)); [|done].
  destruct st; [done|].
  destruct ((THREAD_IDLE_TIME <=? wrap64 dur)
            && (initThreadSize_ (pool w) <? curThreadSize_ (pool w))); [|done].
  run_monad. simpl. intros [= <-]; simpl. unfold queue_size; simpl. repeat split; lia.
Qed.

Lemma exec_op_queue_inv (stopping : bool) (mode : PoolMode) (b : Z) (o : op)
    (ops : list op) (w w' : World) :
  after_start stopping (o :: ops) = true →
  after (exec_op o w) = Some w' →
  queue_inv stopping mode b (pool w) →
  ∃ stopping', after_start stopping' ops = true ∧ queue_inv stopping' mode b (pool w').
Proof.
  unfold queue_inv.
  intros Hseq Hstep (Hmode & Hb & Hq & Hrun).
  destruct o; simpl in Hseq, Hstep;
    try (apply andb_true_iff in Hseq as [Hst Hseq];
         first [apply negb_true_iff in Hst | idtac]; subst stopping);
    try discriminate.
  - exists false. split; [done|]. revert Hstep. unfold setPoolMode. run_monad.
    rewrite Hrun by done. by intros [= <-].
  - exists false. split; [done|]. revert Hstep. unfold setTaskQueMaxThreshHold. run_monad.
    rewrite Hrun by done. by intros [= <-].
  - exists false. split; [done|]. revert Hstep. unfold setThreadMaxThreshHold. run_monad.
    rewrite Hrun by done. by intros [= <-].
  - (* submitTask *)
    exists false. split; [done|].
    destruct (Z.lt_ge_cases (queue_size (pool w)) (taskQueMaxThreshHold_ (pool w))) as [Hlt|Hge].
    + rewrite submitTask_accept in Hstep by done. cbv zeta in Hstep.
      match type of Hstep with context [if ?c then _ else _] => destruct c end;
        apply Result_ctor_after in Hstep as ->; simpl;
        (split; [done|]); (split; [done|]); (split; [|by apply Hrun]);
        unfold queue_size in *; simpl; rewrite length_app; simpl; lia.
    + rewrite submitTask_reject in Hstep by done.
      by apply Result_ctor_after in Hstep as ->.
  - exists stopping. split; [done|].
    apply threadHandler_locked_queue in Hstep as (E1 & E2 & E3 & E4).
    rewrite E1, E2, E4. repeat split; try done. lia.
  - exists stopping. split; [done|].
    apply threadHandler_woken_queue in Hstep as (E1 & E2 & E3 & E4).
    rewrite E1, E2, E4. repeat split; try done. lia.
  - exists stopping. split; [done|].
    unfold threadHandler_exec in Hstep. destruct task as [t|].
    + by apply Task_exec_after in Hstep as ->.
    + by injection Hstep as <-.
  - exists stopping. split; [done|]. by injection Hstep as <-.
  - exists true. split; [done|]. by injection Hstep as <-.
  - exists true. split; [done|]. revert Hstep. unfold dtor_locked, dtor_wait. run_monad.
    simpl. destruct (Z.of_nat (size (threads_ (pool w))) =? 0); by intros [= <-].
  - exists true. split; [done|]. revert Hstep. unfold dtor_wait. run_monad.
    destruct (Z.of_nat (size (threads_ (pool w))) =? 0); by intros [= <-].
Qed.

Lemma run_ops_queue_inv (mode : PoolMode) (b : Z) (ops : list op) :
  ∀ (stopping : bool) (w w' : World),
    after_start stopping ops = true →
    run_ops ops w = Some w' →
    queue_inv stopping mode b (pool w) →
    ∃ stopping', queue_inv stopping' mode b (pool w').
Proof.
  induction ops as [|o ops IH]; intros stopping w w' Hseq Hrun Hinv.
  - injection Hrun as <-. by exists stopping.
  - simpl in Hrun. destruct (after (exec_op o w)) as [w1|] eqn:Hstep; [|done].
    destruct (exec_op_queue_inv stopping mode b o ops w w1) as (st' & Hseq' & Hinv');
      [done..|].
    by eapply IH.
Qed.

Lemma start_queue (w w0 : World) (n : Z) :
  start n w = Done tt w0 →
  poolMode_ (pool w0) = poolMode_ (pool w) ∧
  taskQueMaxThreshHold_ (pool w0) = taskQueMaxThreshHold_ (pool w) ∧
  taskQue_ (pool w0) = taskQue_ (pool w).
Proof.
  set (P := λ w' : World,
         poolMode_ (pool w') = poolMode_ (pool w) ∧
         taskQueMaxThreshHold_ (pool w') = taskQueMaxThreshHold_ (pool w) ∧
         taskQue_ (pool w') = taskQue_ (pool w)).
  unfold start. run_monad. simpl.
  match goal with |- context [for_int ?l ?i ?m ?b ?x] =>
    destruct (for_int l i m b x) as [[] w1|w1|f] eqn:H1; [|done..]
  end.
  assert (P w1) as HP1.
  { eapply for_int_invariant; [| apply H1 | done].
    intros i wa wb. unfold start_create, Thread_ctor, getId. run_monad.
    by intros [= <-]. }
  intros Hrest. eapply (for_int_invariant P); [| apply Hrest | done].
  intros i wa wb. unfold start_launch, threads_at_start, Thread_start. run_monad.
  destruct (threads_ (pool wa) !! i); [|done]. by intros [= <-].
Qed.

(** X10: from the return of [start] on, through every setter call,
    submission, worker move and the destructor, the mode and the queue
    bound stay what they were at the start, and a queue that was within
    the bound at the start stays within it. *)
Theorem queue_within_bound (w w0 w' : World) (n : Z) (ops : list op) :
  queue_size (pool w) ≤ taskQueMaxThreshHold_ (pool w) →
  start n w = Done tt w0 →
  after_start false ops = true →
  run_ops ops w0 = Some w' →
  poolMode_ (pool w') = poolMode_ (pool w) ∧
  taskQueMaxThreshHold_ (pool w') = taskQueMaxThreshHold_ (pool w) ∧
  queue_size (pool w') ≤ taskQueMaxThreshHold_ (pool w').
Proof.
  intros Hq Hstart Hseq Hrun.
  pose proof (start_limits w w0 n Hstart) as (_ & _ & _ & Hrunning).
  apply start_queue in Hstart as (E1 & E2 & E3).
  destruct (run_ops_queue_inv (poolMode_ (pool w)) (taskQueMaxThreshHold_ (pool w))
              ops false w0 w') as (st' & F1 & F2 & F3 & _); [done..| |].
  - unfold queue_inv, queue_size in *. rewrite E1, E2, E3. done.
  - rewrite F1, F2. done.
Qed.

(** ** Configuration order *)

(** X11: on a pool that is not started and still in fixed mode, the
    ceiling set before the switch to cached mode is lost, the ceiling set
    after it is kept. *)
Theorem ceiling_after_mode (w : World) (threshhold : Z) :
  isPoolRunning_ (pool w) = false →
  poolMode_ (pool w) = MODE_FIXED →
  (setThreadMaxThreshHold threshhold >> setPoolMode MODE_CACHED) w =
    Done tt (mkWorld (set_poolMode_ MODE_CACHED (pool w))
               (generateId_ w) (tasks w) (results w) (events w)) ∧
  (setPoolMode MODE_CACHED >> setThreadMaxThreshHold threshhold) w =
    Done tt (mkWorld (set_threadSizeThreshHold_ threshhold (set_poolMode_ MODE_CACHED (pool w)))
               (generateId_ w) (tasks w) (results w) (events w)).
Proof.
  intros Hrun Hmode. unfold setThreadMaxThreshHold, setPoolMode. run_monad.
  rewrite Hrun, Hmode. simpl. rewrite Hrun. done.
Qed.

(** ** The dispatch loop *)

(** X12: in cached mode a worker that wakes by timeout after at least
    [THREAD_IDLE_TIME] idle seconds, with more workers than the initial
    count, ends there: it erases its entry and counts both counters down,
    without a broadcast and without a look at the queue or at the running
    flag.  In every other case the wake-up goes on as the locked section
    does. *)
Theorem threadHandler_woken_retires (w : World) (threadid : Z) (st : cv_status) (dur : Z) :
  let retire :=
    poolMode_ (pool w) = MODE_CACHED ∧ st = timeout ∧
    THREAD_IDLE_TIME ≤ wrap64 dur ∧
    initThreadSize_ (pool w) < curThreadSize_ (pool w) in
  (retire →
     threadHandler_woken threadid st dur w =
       Done handler_return
         (mkWorld (set_threadIdelSize_ decr (set_curThreadSize_ decr
                     (set_threads_ (delete threadid) (pool w))))
            (generateId_ w) (tasks w) (results w) (events w))) ∧
  (¬ retire →
     threadHandler_woken threadid st dur w = threadHandler_locked threadid w).
Proof.
  intros retire. subst retire. unfold threadHandler_woken. split.
  - intros (Hm & -> & Hd & Hc). unfold bind at 1. unfold gets at 1.
    destruct (decide (poolMode_ (pool w) = MODE_CACHED)); [|done].
    destruct (Z.leb_spec THREAD_IDLE_TIME (wrap64 dur)); [|lia].
    destruct (Z.ltb_spec (initThreadSize_ (pool w)) (curThreadSize_ (pool w))); [|lia].
    done.
  - intros Hn. unfold bind at 1. unfold gets at 1.
    destruct (decide (poolMode_ (pool w) = MODE_CACHED)); [|done].
    destruct st; [done|].
    destruct (Z.leb_spec THREAD_IDLE_TIME (wrap64 dur)); [|done].
    destruct (Z.ltb_spec (initThreadSize_ (pool w)) (curThreadSize_ (pool w))); [|done].
    exfalso. by apply Hn.
Qed.

(** ** Shutdown *)


(** ** Where [start] breaks *)

Lemma incr_wrap64 (x : Z) : incr (wrap64 x) = wrap64 (x + 1).
Proof. unfold incr, wrap64. by rewrite Zplus_mod_idemp_l. Qed.

Lemma start_create_loop_skips_0 (n g : Z) :
  n ≤ INT_MAX → 0 < g → g + n ≤ SIZE_MOD →
  ∀ left i w,
    left = Z.to_nat (n - i) → 0 ≤ i ≤ n →
    generateId_ w = wrap64 (g + i) →
    threads_ (pool w) !! 0 = None →
    ∃ w', for_int left i n (λ _, start_create) w = Done tt w' ∧
          threads_ (pool w') !! 0 = None.
Proof.
  intros Hmax Hg Hgn. induction left as [|left IH]; intros i w Hleft Hi Hid H0.
  - exists w. by simpl.
  - rewrite for_int_S, start_create_step.
    destruct (Z.ltb_spec i n) as [Hlt|]; [|lia].
    destruct (Z.eqb_spec i INT_MAX) as [|_]; [lia|].
    apply IH; [lia|lia|..]; simpl.
    + rewrite Hid, incr_wrap64. f_equal. lia.
    + rewrite Hid. unfold emplace.
      assert (wrap64 (g + i) = g + i) as -> by (apply Z.mod_small; lia).
      destruct (threads_ (pool w) !! (g + i)); [done|].
      rewrite lookup_insert_ne by lia. done.
Qed.

(** X14: [start(n)] with [n] at least 1 on a pool that has no worker
    under the key 0, in a process whose identifier source has moved past
    0, always ends in the dereference of the null entry [threads_[0]]:
    the new workers are registered under the identifiers from
    [generateId_] on, the launch loop starts its look-ups at 0. *)
Theorem start_later_pool_faults (w : World) (n : Z) :
  0 < n ≤ INT_MAX →
  0 < generateId_ w → generateId_ w + n ≤ SIZE_MOD →
  threads_ (pool w) !! 0 = None →
  start n w = Fault NullDeref.
Proof.
  intros Hn Hg Hgn H0. unfold start. run_monad. simpl.
  match goal with |- context [for_int _ 0 n (λ _, start_create) ?w1] =>
    destruct (start_create_loop_skips_0 n (generateId_ w) (proj2 Hn) Hg Hgn
                (Z.to_nat n) 0 w1) as (w' & -> & H0')
  end; [lia|lia|simpl| done |].
  { rewrite Z.add_0_r. symmetry. apply Z.mod_small. lia. }
  replace (Z.to_nat n) with (S (Z.to_nat (n - 1))) by lia.
  rewrite for_int_S. destruct (Z.ltb_spec 0 n); [|lia].
  unfold start_launch, threads_at_start. run_monad. by rewrite H0'.
Qed.

Lemma start_create_loop_overflows (n : Z) :
  INT_MAX < n →
  ∀ k left i w,
    k = Z.to_nat (INT_MAX - i) → 0 ≤ i ≤ INT_MAX → (k < left)%nat →
    for_int left i n (λ _, start_create) w = Fault SignedOverflow.
Proof.
  intros Hn. induction k as [|k IH]; intros left i w Hk Hi Hleft.
  - assert (i = INT_MAX) as -> by lia.
    destruct left as [|left]; [lia|].
    rewrite for_int_S, start_create_step.
    destruct (Z.ltb_spec INT_MAX n); [|lia]. by rewrite Z.eqb_refl.
  - destruct left as [|left]; [lia|].
    rewrite for_int_S, start_create_step.
    destruct (Z.ltb_spec i n); [|lia].
    destruct (Z.eqb_spec i INT_MAX); [lia|].
    apply IH; lia.
Qed.

(** X15: [start(n)] with [n] above [INT_MAX] never gets past its
    first loop: the [int] counter reaches [INT_MAX] while the [size_t]
    bound is still ahead, and the next [i++] overflows. *)
Theorem start_overflows (w : World) (n : Z) :
  INT_MAX < n →
  start n w = Fault SignedOverflow.
Proof.
  intros Hn. unfold start. run_monad. simpl.
  rewrite (start_create_loop_overflows n Hn (Z.to_nat INT_MAX));
    [done|lia|unfold INT_MAX; lia|unfold INT_MAX in *; lia].
Qed.

(** ** main.cpp: the sums of [MyTask] *)

Lemma MyTask_loop_sum (b e : Z) :
  0 ≤ b → e + 1 < SIZE_MOD →
  ∀ left i sum S,
    b ≤ i ≤ e + 1 →
    sum = wrap64 S → 2 * S = (i - b) * (b + i - 1) →
    (Z.to_nat (e + 1 - i) ≤ left)%nat →
    ∃ T, MyTask_loop left e i sum = Some (wrap64 T) ∧ 2 * T = (e + 1 - b) * (b + e).
Proof.
  intros Hb He. induction left as [|left IH]; intros i sum S Hi Hsum HS Hleft.
  - assert (i = e + 1) as -> by lia. simpl.
    destruct (Z.leb_spec (e + 1) e); [lia|]. exists S. split; [by subst|]. rewrite HS. lia.
  - simpl. destruct (Z.leb_spec i e) as [Hle|Hgt].
    + assert (wrap64 (i + 1) = i + 1) as -> by (apply Z.mod_small; lia).
      apply (IH (i + 1) _ (S + i)); [lia| |lia|lia].
      subst sum. unfold wrap64. by rewrite Zplus_mod_idemp_l.
    + assert (i = e + 1) as -> by lia. exists S. split; [by subst|]. rewrite HS. lia.
Qed.

(** X16: [MyTask(b, e).run()] with [b ≤ e] below the largest
    [unsigned long long] returns, after [e - b + 1] iterations, the sum
    [(e - b + 1) * (b + e) / 2] reduced modulo [2^64]; with [e < b] it
    returns 0 at once. *)
Theorem MyTask_run_sum (left : nat) (b e : Z) :
  0 ≤ b → e + 1 < SIZE_MOD →
  (Z.to_nat (e + 1 - b) ≤ left)%nat →
  MyTask_run left b e =
    Some (if b <=? e then wrap64 ((e - b + 1) * (b + e) / 2) else 0).
Proof.
  intros Hb He Hleft. unfold MyTask_run.
  destruct (Z.leb_spec b e) as [Hle|Hgt].
  - destruct (MyTask_loop_sum b e Hb He left b 0 0) as (T & -> & HT);
      [lia|done|lia|done|].
    do 2 f_equal. replace (e - b + 1) with (e + 1 - b) by lia.
    rewrite <- HT, Z.mul_comm. by rewrite Z.div_mul.
  - destruct left; simpl; by destruct (Z.leb_spec b e); [lia|].
Qed.

Lemma MyTask_loop_forever (left : nat) :
  ∀ i sum, 0 ≤ i < SIZE_MOD → MyTask_loop left (SIZE_MOD - 1) i sum = None.
Proof.
  induction left as [|left IH]; intros i sum Hi; simpl;
    destruct (Z.leb_spec i (SIZE_MOD - 1)); try lia; [done|].
  apply IH. apply Z.mod_pos_bound. done.
Qed.

(** X17: with [end_] the largest [unsigned long long] the loop
    condition [i <= end_] never fails: [run()] does not return, however
    many iterations it is given. *)
Theorem MyTask_run_never_returns (left : nat) (b : Z) :
  0 ≤ b < SIZE_MOD →
  MyTask_run left b (SIZE_MOD - 1) = None.
Proof. intros Hb. by apply MyTask_loop_forever. Qed.

(** X18: a range cut in two, as main.cpp cuts its range over several
    tasks: the results of the two parts add up, in [unsigned long long]
    arithmetic, to the result of the whole. *)
Theorem MyTask_run_split (left : nat) (b m e : Z) :
  0 ≤ b → b ≤ m → m < e → e + 1 < SIZE_MOD →
  (Z.to_nat (e + 1 - b) ≤ left)%nat →
  ∃ s1 s2 s,
    MyTask_run left b m = Some s1 ∧
    MyTask_run left (m + 1) e = Some s2 ∧
    MyTask_run left b e = Some s ∧
    s = wrap64 (s1 + s2).
Proof.
  intros Hb Hbm Hme He Hleft. unfold MyTask_run.
  destruct (MyTask_loop_sum b m Hb ltac:(lia) left b 0 0) as (T1 & -> & HT1);
    [lia|done|lia|lia|].
  destruct (MyTask_loop_sum (m + 1) e ltac:(lia) He left (m + 1) 0 0) as (T2 & -> & HT2);
    [lia|done|lia|lia|].
  destruct (MyTask_loop_sum b e Hb He left b 0 0) as (T & -> & HT);
    [lia|done|lia|lia|].
  eexists _, _, _. repeat split.
  unfold wrap64. rewrite <- Zplus_mod. f_equal. nia.
Qed.

(** ** Further edges of [submitTask] and of the dispatch loop *)

(** X19: [submitTask] given a null task pointer never returns a handle,
    valid or not: with or without room in the queue it ends in the
    constructor of [Result], which calls [setResult] through the null
    pointer. *)
Theorem submitTask_null (w : World) (ret_slot : addr) :
  submitTask None ret_slot w = Fault NullDeref.
Proof.
  destruct (Z.lt_ge_cases (queue_size (pool w)) (taskQueMaxThreshHold_ (pool w))) as [Hq|Hq].
  - rewrite submitTask_accept by done. cbv zeta.
    by match goal with |- context [if ?c then _ else _] => destruct c end.
  - by rewrite submitTask_reject by done.
Qed.

(** X20: one full turn of a worker on a non-empty queue (the locked
    section, the task's [exec()], the count back to idle) takes the task
    at the front and otherwise leaves the pool as it was: the registry,
    the worker count, the idle count and the configuration are unchanged,
    the queue has lost its front and [taskSize_] one unit. *)
Theorem worker_turn (w w2 : World) (threadid : Z) (task : option addr)
    (rest : list (option addr)) :
  taskQue_ (pool w) = task :: rest →
  0 ≤ threadIdelSize_ (pool w) < SIZE_MOD →
  ∃ w1, threadHandler_locked threadid w = Done (handler_got task) w1 ∧
        (threadHandler_exec task w1 = Done tt w2 →
         ∃ w3, threadHandler_idle w2 = Done tt w3 ∧
               pool w3 = set_taskSize_ decr (set_taskQue_ (λ _, rest) (pool w))).
Proof.
  intros Hq Hidle. eexists. split; [by apply (threadHandler_locked_take _ _ task rest)|].
  intros Hexec.
  assert (pool w2 = set_taskSize_ decr (set_taskQue_ (drop 1)
                      (set_threadIdelSize_ decr (pool w)))) as Hp2.
  { unfold threadHandler_exec in Hexec. destruct task as [t|].
    - assert (after (Task_exec t _) = Some w2) as Ha by (by rewrite Hexec).
      by apply Task_exec_after in Ha.
    - by injection Hexec as <-. }
  eexists. split; [reflexivity|]. simpl. rewrite Hp2.
  unfold set_threadIdelSize_, set_taskSize_, set_taskQue_. simpl.
  rewrite Hq. simpl. rewrite drop_0. by rewrite incr_decr.
Qed.

(** ** [start] on the first pool of the process *)

(** X21: [start(n)], with [n] within the range of the [int] loop
    counter, on a pool with an empty registry and no idle worker counted,
    in a process that has built no [Thread] yet: it returns with the pool
    running, [n] as initial, current and idle count, exactly the workers
    [0 .. n-1] in the registry, each under its identifier, launched in
    that order. *)
Theorem start_spawns_initial_workers (w : World) (n : Z) :
  0 ≤ n ≤ INT_MAX →
  generateId_ w = 0 →
  threads_ (pool w) = ∅ →
  threadIdelSize_ (pool w) = 0 →
  ∃ w', start n w = Done tt w' ∧
        isPoolRunning_ (pool w') = true ∧
        initThreadSize_ (pool w') = n ∧
        curThreadSize_ (pool w') = n ∧
        threadIdelSize_ (pool w') = n ∧
        holds_upto (threads_ (pool w')) n ∧
        size (threads_ (pool w')) = Z.to_nat n ∧
        generateId_ w' = n ∧
        events w' = events w ++ (Launch <$> seqZ 0 n).
Proof. apply start_first_pool. Qed.

(** ** The destructor's wait *)

(** X22: the destructor leaves the running flag cleared and one
    broadcast on [notEmpty_] behind, the registry as it was; it returns
    only from a state whose registry is empty, at the first test of the
    wait or at a later wake-up, and stays parked on [exitCond_] while a
    worker is registered.  A worker that finds the queue empty and the
    pool stopped erases its own entry from the registry, broadcasts on
    [exitCond_] and ends. *)
Theorem dtor_waits_for_registry (w : World) :
  let w1 := mkWorld (set_isPoolRunning_ false (pool w)) (generateId_ w)
              (tasks w) (results w) (events w ++ [NotifyAll notEmpty_]) in
  isPoolRunning_ (pool w1) = false ∧
  threads_ (pool w1) = threads_ (pool w) ∧
  (threads_ (pool w) ≠ ∅ → ThreadPool_dtor w = Blocked w1) ∧
  (threads_ (pool w) = ∅ → ThreadPool_dtor w = Done tt w1) ∧
  (∀ w', ThreadPool_dtor w = Done tt w' ∨ dtor_wait w = Done tt w' →
         threads_ (pool w') = ∅) ∧
  (∀ threadid,
     queue_size (pool w) = 0 → isPoolRunning_ (pool w) = false →
     let w' := mkWorld (set_threads_ (delete threadid) (pool w)) (generateId_ w)
                 (tasks w) (results w) (events w ++ [NotifyAll exitCond_]) in
     threadHandler_locked threadid w = Done handler_return w' ∧
     threads_ (pool w') = delete threadid (threads_ (pool w)) ∧
     isPoolRunning_ (pool w') = false).
Proof.
  intros w1.
  assert (Hd : ThreadPool_dtor w = dtor_wait w1) by done.
  destruct (dtor_wait_spec w1) as [He1 Hn1].
  destruct (dtor_wait_spec w) as [He Hn].
  split; [reflexivity|]. split; [reflexivity|].
  split; [|split; [|split]].
  - intros Hne. rewrite Hd. by apply Hn1.
  - intros Hemp. rewrite Hd. by apply He1.
  - intros w' [Hret|Hret].
    + rewrite Hd in Hret.
      destruct (decide (threads_ (pool w1) = ∅)) as [Hemp|Hne].
      * rewrite He1 in Hret by done. by injection Hret as <-.
      * rewrite Hn1 in Hret by done. discriminate.
    + destruct (decide (threads_ (pool w) = ∅)) as [Hemp|Hne].
      * rewrite He in Hret by done. by injection Hret as <-.
      * rewrite Hn in Hret by done. discriminate.
  - intros threadid Hq Hr w'. split; [|split; [reflexivity|exact Hr]].
    unfold threadHandler_locked. run_monad.
    by rewrite Hq, Hr.
Qed.

End Model.

(** * The pool on the tasks of main.cpp *)

(** A task that returns 55 as an [unsigned long long], and a process
    that holds two such tasks at addresses 100 and 101. *)
Abbreviation sum_task := (Task_ctor (Any_of (El:=main_El) (user_type Ulong) 55)).
Abbreviation main_world := (World_init (El:=main_El) {[ 100 := sum_task; 101 := sum_task ]}).

(** C7: in a process whose first pool ran one worker and was destroyed,
    [generateId_] stands at 1; [start(1)] on a second, freshly constructed
    pool registers its worker under 1, then looks up the loop counter 0
    and dereferences the null entry. *)
Theorem start_second_pool_faults :
  ∃ w1 : World (El:=main_El),
    run_ops [call_start 1; main_dtor_stop; main_dtor_locked; worker_locked 0;
             main_dtor_woken] main_world = Some w1 ∧
    threads_ (pool w1) = ∅ ∧
    generateId_ w1 = 1 ∧
    start 1 (mkWorld ThreadPool_ctor (generateId_ w1) (tasks w1) (results w1) (events w1))
      = Fault NullDeref.
Proof.
  eexists. split; [vm_compute; reflexivity|]. cbn [pool generateId_ tasks results events threads_]. 
  repeat split. 
Qed.

(** C8: a cached pool started with one worker takes two tasks, which
    brings in the worker 1; both tasks run, both workers go back to
    their wait, and the destructor parks on [exitCond_].  The worker 0
    wakes, finds the pool stopped, erases itself and broadcasts on
    [exitCond_]; the destructor wakes, finds the worker 1 registered and
    parks again.  The worker 1 wakes by timeout after two idle seconds:
    it erases itself and ends with no broadcast at all.  The registry is
    empty, the pool is stopped, and nothing has woken the destructor
    since it parked. *)
Theorem idle_retire_leaves_dtor_parked :
  ∃ w0 w wa wb : World (El:=main_El),
    run_ops [call_setPoolMode MODE_CACHED; call_start 1;
             call_submitTask (Some 100) 200; call_submitTask (Some 101) 201;
             worker_locked 0; worker_locked 1;
             worker_exec (Some 100); worker_exec (Some 101);
             worker_idle; worker_idle;
             worker_locked 0; worker_locked 1] main_world = Some w0 ∧
    dom (threads_ (pool w0)) = {[0; 1]} ∧
    queue_size (pool w0) = 0 ∧
    ThreadPool_dtor w0 = Blocked w ∧
    isPoolRunning_ (pool w) = false ∧
    threadHandler_woken 0 no_timeout 0 w = Done handler_return wa ∧
    events wa = events w ++ [NotifyAll exitCond_] ∧
    dom (threads_ (pool wa)) = {[1]} ∧
    dtor_wait wa = Blocked wa ∧
    threadHandler_woken 1 timeout 2 wa = Done handler_return wb ∧
    events wb = events wa ∧
    threads_ (pool wb) = ∅ ∧
    isPoolRunning_ (pool wb) = false ∧
    dtor_wait wb = Done tt wb.
Proof.
  eexists _, _, _, _.
  split; [vm_compute; reflexivity|].
  split; [by vm_compute|].
  split; [by vm_compute|].
  split; [vm_compute; reflexivity|].
  split; [reflexivity|].
  split; [vm_compute; reflexivity|].
  split; [reflexivity|].
  split; [by vm_compute|].
  split; [vm_compute; reflexivity|].
  split; [vm_compute; reflexivity|].
  split; [reflexivity|].
  split; [reflexivity|].
  split; [reflexivity|].
  vm_compute; reflexivity.
Qed.

(** C2 as stated fails: a pool left in fixed mode, where the ceiling stays
    at its default of 1024 whatever the setter is given, and started with
    1025 workers has more workers than its ceiling. *)
Lemma worker_count_exceeds_ceiling :
  ¬ (∀ w : World (El:=main_El),
       reachable w → curThreadSize_ (pool w) ≤ threadSizeThreshHold_ (pool w)).
Proof.
  intros Hall.
  destruct (start_first_pool main_world 1025) as (w & Hstart & _ & _ & Hcur & _);
    [by vm_compute|reflexivity..|].
  destruct (start_limits main_world w 1025 Hstart) as (_ & _ & Hceil & _).
  assert (reachable w) as Hreach.
  { exists {[ 100 := sum_task; 101 := sum_task ]}, [call_start 1025].
    rewrite run_ops_single. cbn [exec_op]. by rewrite Hstart. }
  specialize (Hall w Hreach). rewrite Hcur, Hceil in Hall.
  clear -Hall. vm_compute in Hall. by apply Hall.
Qed.


(** ** The theorems at work on these tasks *)

(** C1 on the first submission to a fresh pool. *)
Lemma submitTask_outcomes_witness :
  tasks main_world !! 100 = Some sum_task ∧
  ∃ w' r,
    submitTask (Some 100) 200 main_world = Done tt w' ∧
    results w' !! 200 = Some r ∧
    task_ r = Some 100 ∧
    ((queue_size (pool main_world) < taskQueMaxThreshHold_ (pool main_world) ∧
      isValid_ r = true ∧
      taskQue_ (pool w') = taskQue_ (pool main_world) ++ [Some 100] ∧
      taskSize_ (pool w') = incr (taskSize_ (pool main_world)))
     ∨
     (taskQueMaxThreshHold_ (pool main_world) ≤ queue_size (pool main_world) ∧
      isValid_ r = false ∧
      pool w' = pool main_world)).
Proof.
  split; [reflexivity|].
  apply (submitTask_outcomes main_world 100 200 sum_task). reflexivity.
Defined.

(** C2 on a cached pool started with one worker: the second submission
    adds a worker, which later retires on its idle timeout; a setter call
    is ignored; the pool shuts down. *)
Lemma worker_count_within_limits_witness :
  ∃ w w0 w' : World (El:=main_El),
    setPoolMode MODE_CACHED main_world = Done tt w ∧
    start 1 w = Done tt w0 ∧
    run_ops [call_submitTask (Some 100) 200; call_submitTask (Some 101) 201;
             worker_locked 0; worker_locked 1;
             worker_exec (Some 100); worker_exec (Some 101);
             worker_idle; worker_idle;
             worker_locked 1; worker_woken 1 timeout 2;
             call_setThreadMaxThreshHold 0;
             main_dtor_stop; main_dtor_locked; worker_locked 0; main_dtor_woken] w0
      = Some w' ∧
    threadSizeThreshHold_ (pool w') = threadSizeThreshHold_ (pool w) ∧
    initThreadSize_ (pool w') = 1 ∧
    initThreadSize_ (pool w') ≤ curThreadSize_ (pool w') ∧
    curThreadSize_ (pool w') ≤ threadSizeThreshHold_ (pool w').
Proof.
  eexists _, _, _.
  split; [vm_compute; reflexivity|].
  split; [vm_compute; reflexivity|].
  match goal with
  | |- run_ops ?o ?wb = Some ?wc ∧
       threadSizeThreshHold_ _ = threadSizeThreshHold_ (pool ?wa) ∧ _ =>
      pose (ops := o); pose (w := wa); pose (w0 := wb); pose (w' := wc)
  end.
  split; [vm_compute; reflexivity|].
  destruct (worker_count_within_limits w w0 w' 1 ops) as (Hc & Hi & Hlo & _ & Hhi).
  - by vm_compute.
  - by vm_compute.
  - vm_compute; reflexivity.
  - reflexivity.
  - vm_compute; reflexivity.
  - split; [exact Hc|]. split; [exact Hi|]. split; [exact Hlo|].
    apply Hhi. by vm_compute.
Defined.

(** C3 on an invalid handle, on a valid handle whose task has not
    finished, and on a valid handle whose task has delivered 55. *)
Lemma Result_get_spec_witness :
  Result_get (mkResult (Any_default (El:=main_El)) (Semaphore_ctor 0) (Some 100) false)
    = Done (Any_of const_char_ptr EmptyString)
           (mkResult Any_default (Semaphore_ctor 0) (Some 100) false) ∧
  Result_get (mkResult (Any_default (El:=main_El)) (Semaphore_ctor 0) (Some 100) true)
    = Blocked (mkResult Any_default (Semaphore_ctor 0) (Some 100) true) ∧
  Result_get (mkResult (Any_of (El:=main_El) (user_type Ulong) 55) (mkSemaphore 1 false)
                (Some 100) true)
    = Done (Any_of (user_type Ulong) 55)
           (mkResult Any_default (mkSemaphore 0 false) (Some 100) true).
Proof.
  split; [|split].
  - apply (proj1 (Result_get_spec _)). reflexivity.
  - apply (proj1 (proj2 (Result_get_spec _))); [reflexivity|reflexivity|simpl; lia].
  - apply (proj2 (proj2 (Result_get_spec
            (mkResult (Any_of (El:=main_El) (user_type Ulong) 55) (mkSemaphore 1 false)
               (Some 100) true)))); [reflexivity|reflexivity|simpl; lia].
Defined.

(** C5 on a cached pool with one worker and one task waiting: the next
    submission adds the worker 1. *)
Lemma submitTask_scaling_witness :
  ∃ w w' : World (El:=main_El),
    run_ops [call_setPoolMode MODE_CACHED; call_start 1; call_submitTask (Some 100) 200]
      main_world = Some w ∧
    submitTask (Some 101) 201 w = Done tt w' ∧
    threads_ (pool w') = <[1 := mkThread 1]> (threads_ (pool w)) ∧
    generateId_ w' = incr 1 ∧
    events w' = events w ++ [NotifyAll notEmpty_; Launch 1] ∧
    curThreadSize_ (pool w') = incr (curThreadSize_ (pool w)) ∧
    threadIdelSize_ (pool w') = incr (threadIdelSize_ (pool w)).
Proof.
  eexists _, _.
  split; [vm_compute; reflexivity|].
  split; [vm_compute; reflexivity|].
  match goal with |- threads_ (pool ?w') = <[_:=_]> (threads_ (pool ?w)) ∧ _ =>
    destruct (submitTask_scaling w w' (Some 101) 201) as (_ & Hgrow & _)
  end.
  - by vm_compute.
  - vm_compute; reflexivity.
  - reflexivity.
  - apply Hgrow. by vm_compute.
Defined.

(** C6 on the [unsigned long long] 55 and on an empty [Any]. *)
Lemma cast_roundtrip_or_mismatch_witness :
  cast_ (El:=main_El) (user_type Ulong) (Any_of (user_type Ulong) 55) = Returns 55 ∧
  cast_ (El:=main_El) const_char_ptr (Any_of (user_type Ulong) 55) = Throws "type is unmatch!" ∧
  cast_ (El:=main_El) (user_type Ulong) Any_default = Throws "type is unmatch!".
Proof.
  destruct (cast_roundtrip_or_mismatch (El:=main_El)) as [Hsame Hother].
  split; [apply Hsame|split].
  - apply Hother. intros d [= <-]. discriminate.
  - apply Hother. intros d [=].
Defined.

(** C9 on a started pool, and on a fixed pool before its start. *)
Lemma setters_frame_witness :
  ∃ w : World (El:=main_El),
    start 2 main_world = Done tt w ∧
    setPoolMode MODE_CACHED w = Done tt w ∧
    setTaskQueMaxThreshHold 8 w = Done tt w ∧
    setThreadMaxThreshHold 8 w = Done tt w ∧
    setThreadMaxThreshHold 8 main_world = Done tt main_world.
Proof.
  eexists. split; [vm_compute; reflexivity|].
  match goal with |- setPoolMode _ ?w = _ ∧ _ =>
    destruct (proj1 (setters_frame w) eq_refl MODE_CACHED 8) as (Hmode & Hque & Hthr)
  end.
  split; [exact Hmode|]. split; [exact Hque|]. split; [exact Hthr|].
  apply (proj1 (proj2 (setters_frame main_world))). reflexivity.
Defined.

(** C10 on a task no handle was built for. *)
Lemma Task_exec_unbound_witness :
  tasks main_world !! 100 = Some sum_task ∧
  result_ sum_task = None ∧
  Task_exec 100 main_world = Done tt main_world.
Proof.
  split; [reflexivity|]. split; [reflexivity|].
  apply (Task_exec_unbound main_world 100 sum_task); reflexivity.
Defined.

(** ** The further properties at work *)

(** X1 on a fresh semaphore. *)
Lemma Semaphore_post_wait_witness :
  (Semaphore_post >> Semaphore_wait) (Semaphore_ctor 0) = Done tt (Semaphore_ctor 0).
Proof.
  apply (Semaphore_post_wait (Semaphore_ctor 0)); [reflexivity|by vm_compute].
Defined.

(** X2 on a fresh valid handle and the value 55. *)
Lemma Result_setVal_get_witness :
  let r := mkResult (Any_default (El:=main_El)) (Semaphore_ctor 0) (Some 100) true in
  (Result_setVal (Any_of (user_type Ulong) 55) >> Result_get) r
    = Done (Any_of (user_type Ulong) 55) r ∧
  Result_get r = Blocked r.
Proof.
  intros r.
  destruct (Result_setVal_get r (Any_of (user_type Ulong) 55)) as [Hget Hagain];
    [reflexivity|reflexivity|by vm_compute|by vm_compute|].
  split; [exact Hget|]. by apply Hagain.
Defined.

(** X3 on the handle of a rejected submission. *)
Lemma Result_get_invalid_cast_witness :
  ∃ a, Result_get (mkResult (Any_default (El:=main_El)) (Semaphore_ctor 0) (Some 100) false)
         = Done a (mkResult Any_default (Semaphore_ctor 0) (Some 100) false) ∧
       cast_ const_char_ptr a = Returns EmptyString ∧
       cast_ (user_type Ulong) a = Throws "type is unmatch!".
Proof.
  destruct (Result_get_invalid_cast
              (mkResult (Any_default (El:=main_El)) (Semaphore_ctor 0) (Some 100) false))
    as (a & Hget & Hstr & Hother); [reflexivity|].
  exists a. split; [exact Hget|]. split; [exact Hstr|]. apply Hother.
Defined.

(** X4 on the first task of a fresh pool. *)
Lemma submit_take_exec_get_witness :
  ∃ w1 w2 w3 w4 : World (El:=main_El),
    submitTask (Some 100) 200 main_world = Done tt w1 ∧
    on_result 200 Result_get w1 = Blocked w1 ∧
    threadHandler_locked 0 w1 = Done (handler_got (Some 100)) w2 ∧
    threadHandler_exec (Some 100) w2 = Done tt w3 ∧
    events w3 = events w2 ++ [Run 100] ∧
    on_result 200 Result_get w3 = Done (Any_of (user_type Ulong) 55) w4 ∧
    taskQue_ (pool w4) = [].
Proof.
  apply (submit_take_exec_get main_world 100 200 0 sum_task);
    [reflexivity|reflexivity|by vm_compute].
Defined.


(** X6 on the task at 100 submitted for the handles at 200 and 201. *)
Lemma resubmitted_task_rebinds_witness :
  ∃ w1 w2 w3 w4 w5 : World (El:=main_El),
    submitTask (Some 100) 200 main_world = Done tt w1 ∧
    submitTask (Some 100) 201 w1 = Done tt w2 ∧
    threadHandler_locked 0 w2 = Done (handler_got (Some 100)) w3 ∧
    threadHandler_exec (Some 100) w3 = Done tt w4 ∧
    on_result 200 Result_get w4 = Blocked w4 ∧
    on_result 201 Result_get w4 = Done (Any_of (user_type Ulong) 55) w5.
Proof.
  apply (resubmitted_task_rebinds main_world 100 200 201 0 sum_task);
    [reflexivity|reflexivity|by vm_compute|by vm_compute].
Defined.

(** X7 on the handle at 200 moved to 300 before its task has run. *)
Lemma moved_handle_misses_value_witness :
  ∃ w : World (El:=main_El),
    submitTask (Some 100) 200 main_world = Done tt w ∧
    ∃ w1 w2,
      Result_move_ctor 300 200 w = Done tt w1 ∧
      Task_exec 100 w1 = Done tt w2 ∧
      on_result 300 Result_get w2 = Blocked w2 ∧
      on_result 200 Result_get w2 = Done (Any_of const_char_ptr EmptyString) w2.
Proof.
  eexists. split; [vm_compute; reflexivity|].
  match goal with |- ∃ _ _, Result_move_ctor _ _ ?w = _ ∧ _ =>
    apply (moved_handle_misses_value w 100 300 200
             (Task_setResult (Some 200) sum_task)
             (mkResult Any_default (Semaphore_ctor 0) (Some 100) true))
  end; try reflexivity. by vm_compute.
Defined.

(** X8 on a started pool with one task queued. *)
Lemma taskSize_mirrors_queue_witness :
  ∃ w : World (El:=main_El),
    run_ops [call_start 2; call_submitTask (Some 100) 200; call_submitTask (Some 101) 201;
             worker_locked 0] main_world = Some w ∧
    taskSize_ (pool w) = wrap64 (queue_size (pool w)).
Proof.
  eexists. split; [vm_compute; reflexivity|].
  apply taskSize_mirrors_queue.
  exists {[ 100 := sum_task; 101 := sum_task ]},
    [call_start 2; call_submitTask (Some 100) 200; call_submitTask (Some 101) 201;
     worker_locked 0].
  vm_compute. reflexivity.
Defined.

(** X9 on a cached pool that has added the worker 1. *)
Lemma registry_keyed_by_id_witness :
  ∃ w : World (El:=main_El),
    run_ops [call_setPoolMode MODE_CACHED; call_start 1;
             call_submitTask (Some 100) 200; call_submitTask (Some 101) 201] main_world
      = Some w ∧
    threads_ (pool w) !! 1 = Some (mkThread 1) ∧
    getId (mkThread 1) = 1.
Proof.
  eexists. split; [vm_compute; reflexivity|].
  match goal with |- threads_ (pool ?wa) !! _ = _ ∧ _ => pose (w := wa) end.
  split; [reflexivity|].
  apply (registry_keyed_by_id w 1 (mkThread 1)); [|reflexivity].
  exists {[ 100 := sum_task; 101 := sum_task ]},
    [call_setPoolMode MODE_CACHED; call_start 1;
     call_submitTask (Some 100) 200; call_submitTask (Some 101) 201].
  vm_compute. reflexivity.
Defined.

(** X10 on a pool with a queue bound of 1: the second submission is
    turned away, a setter call after the start is ignored. *)
Lemma queue_within_bound_witness :
  ∃ w w0 w' : World (El:=main_El),
    setTaskQueMaxThreshHold 1 main_world = Done tt w ∧
    start 1 w = Done tt w0 ∧
    run_ops [call_submitTask (Some 100) 200; call_submitTask (Some 101) 201;
             call_setTaskQueMaxThreshHold 0; call_setPoolMode MODE_CACHED;
             worker_locked 0; main_dtor_stop] w0 = Some w' ∧
    poolMode_ (pool w') = MODE_FIXED ∧
    taskQueMaxThreshHold_ (pool w') = 1 ∧
    queue_size (pool w') ≤ taskQueMaxThreshHold_ (pool w').
Proof.
  eexists _, _, _.
  split; [vm_compute; reflexivity|].
  match goal with |- start _ ?wa = _ ∧ _ => pose (w := wa) end.
  split; [vm_compute; reflexivity|].
  match goal with
  | |- run_ops ?o ?wb = Some ?wc ∧ _ => pose (ops := o); pose (w0 := wb); pose (w' := wc)
  end.
  split; [vm_compute; reflexivity|].
  apply (queue_within_bound w w0 w' 1 ops).
  - by vm_compute.
  - vm_compute; reflexivity.
  - reflexivity.
  - vm_compute; reflexivity.
Defined.

(** X11 on a fresh pool. *)
Lemma ceiling_after_mode_witness :
  ∃ w1 w2 : World (El:=main_El),
    (setThreadMaxThreshHold 8 >> setPoolMode MODE_CACHED) main_world = Done tt w1 ∧
    (setPoolMode MODE_CACHED >> setThreadMaxThreshHold 8) main_world = Done tt w2 ∧
    threadSizeThreshHold_ (pool w1) = 1024 ∧
    threadSizeThreshHold_ (pool w2) = 8.
Proof.
  destruct (ceiling_after_mode main_world 8) as [H1 H2]; [reflexivity|reflexivity|].
  eexists _, _. split; [exact H1|]. split; [exact H2|]. split; reflexivity.
Defined.

(** X12 on a cached pool with one worker more than at its start: the
    worker 1 retires after two idle seconds, and does not after one. *)
Lemma threadHandler_woken_retires_witness :
  ∃ w w' : World (El:=main_El),
    run_ops [call_setPoolMode MODE_CACHED; call_start 1;
             call_submitTask (Some 100) 200; call_submitTask (Some 101) 201] main_world
      = Some w ∧
    threadHandler_woken 1 timeout 2 w = Done handler_return w' ∧
    events w' = events w ∧
    taskQue_ (pool w') = [Some 100; Some 101] ∧
    threadHandler_woken 1 timeout 1 w = threadHandler_locked 1 w.
Proof.
  eexists _, _. split; [vm_compute; reflexivity|].
  match goal with |- threadHandler_woken _ _ _ ?wa = _ ∧ _ => pose (w := wa) end.
  split.
  { apply (proj1 (threadHandler_woken_retires w 1 timeout 2)).
    repeat split; by vm_compute. }
  split; [reflexivity|]. split; [reflexivity|].
  apply (proj2 (threadHandler_woken_retires w 1 timeout 1)).
  intros (_ & _ & Hdur & _). by vm_compute in Hdur.
Defined.


(** X14 on a second pool in a process that has built three workers. *)
Lemma start_later_pool_faults_witness :
  start 4 (mkWorld (El:=main_El) ThreadPool_ctor 3 ∅ ∅ []) = Fault NullDeref.
Proof.
  apply (start_later_pool_faults (mkWorld (El:=main_El) ThreadPool_ctor 3 ∅ ∅ []) 4);
    [by vm_compute|by vm_compute|by vm_compute|reflexivity].
Defined.

(** X15 on the first count above [INT_MAX]. *)
Lemma start_overflows_witness :
  start 2147483648 main_world = Fault SignedOverflow.
Proof. apply (start_overflows main_world 2147483648). by vm_compute. Defined.

(** X16 on the numbers from 1 to 10, and on an empty range. *)
Lemma MyTask_run_sum_witness :
  MyTask_run 10 1 10 = Some 55 ∧ MyTask_run 0 5 4 = Some 0.
Proof.
  split.
  - apply (MyTask_run_sum 10 1 10); by vm_compute.
  - apply (MyTask_run_sum 0 5 4); by vm_compute.
Defined.

(** X17 with a thousand iterations. *)
Lemma MyTask_run_never_returns_witness :
  MyTask_run 1000 0 (SIZE_MOD - 1) = None.
Proof. apply (MyTask_run_never_returns 1000 0). by vm_compute. Defined.

(** X18 on the numbers from 1 to 10 cut after 4. *)
Lemma MyTask_run_split_witness :
  ∃ s1 s2 s,
    MyTask_run 10 1 4 = Some s1 ∧
    MyTask_run 10 5 10 = Some s2 ∧
    MyTask_run 10 1 10 = Some s ∧
    s = wrap64 (s1 + s2).
Proof. apply (MyTask_run_split 10 1 4 10); by vm_compute. Defined.

(** X20 on a started pool with one task queued. *)
Lemma worker_turn_witness :
  ∃ w w1 w2 w3 : World (El:=main_El),
    run_ops [call_start 1; call_submitTask (Some 100) 200] main_world = Some w ∧
    threadHandler_locked 0 w = Done (handler_got (Some 100)) w1 ∧
    threadHandler_exec (Some 100) w1 = Done tt w2 ∧
    threadHandler_idle w2 = Done tt w3 ∧
    pool w3 = set_taskSize_ decr (set_taskQue_ (λ _, []) (pool w)).
Proof.
  eexists _, _, _, _. split; [vm_compute; reflexivity|].
  split; [vm_compute; reflexivity|].
  match goal with |- threadHandler_exec _ ?wb = Done tt ?wc ∧ _ =>
    pose (w1 := wb); pose (w2 := wc)
  end.
  split; [vm_compute; reflexivity|].
  match goal with |- _ ∧ pool _ = set_taskSize_ _ (set_taskQue_ _ (pool ?wa)) =>
    destruct (worker_turn wa w2 0 (Some 100) []) as (w1' & Htake & Hrest)
  end; [reflexivity|by vm_compute|].
  assert (w1' = w1) as ->.
  { revert Htake. vm_compute. by intros [= <-]. }
  destruct Hrest as (w3 & Hidle & Hpool); [vm_compute; reflexivity|].
  revert Hidle. vm_compute. intros [= <-]. split; [reflexivity|]. exact Hpool.
Defined.

(** X21 on the pool of main.cpp, started with four workers. *)
Lemma start_spawns_initial_workers_witness :
  ∃ w' : World (El:=main_El),
    start 4 main_world = Done tt w' ∧
    isPoolRunning_ (pool w') = true ∧
    initThreadSize_ (pool w') = 4 ∧
    curThreadSize_ (pool w') = 4 ∧
    threadIdelSize_ (pool w') = 4 ∧
    holds_upto (threads_ (pool w')) 4 ∧
    size (threads_ (pool w')) = Z.to_nat 4 ∧
    generateId_ w' = 4 ∧
    events w' = events main_world ++ (Launch <$> seqZ 0 4).
Proof.
  apply (start_spawns_initial_workers main_world 4);
    [by vm_compute|reflexivity|reflexivity|reflexivity].
Defined.

(** X22 on a pool with one worker: the destructor parks with the flag
    cleared, the worker finds the pool stopped and leaves, the
    destructor's wait is over. *)
Lemma dtor_waits_for_registry_witness :
  ∃ w1 w2 w3 : World (El:=main_El),
    start 1 main_world = Done tt w1 ∧
    threads_ (pool w1) ≠ ∅ ∧
    ThreadPool_dtor w1 = Blocked w2 ∧
    isPoolRunning_ (pool w2) = false ∧
    queue_size (pool w2) = 0 ∧
    threadHandler_locked 0 w2 = Done handler_return w3 ∧
    dtor_wait w3 = Done tt w3 ∧
    threads_ (pool w3) = ∅.
Proof.
  eexists _, _, _.
  split; [vm_compute; reflexivity|].
  split; [by vm_compute|].
  split.
  { apply (proj1 (proj2 (proj2 (dtor_waits_for_registry _)))). by vm_compute. }
  split; [reflexivity|].
  split; [reflexivity|].
  split.
  { apply (proj2 (proj2 (proj2 (proj2 (proj2 (dtor_waits_for_registry _))))));
      reflexivity. }
  split; [vm_compute; reflexivity|].
  match goal with |- threads_ (pool ?wc) = ∅ =>
    apply (proj1 (proj2 (proj2 (proj2 (proj2 (dtor_waits_for_registry wc))))) wc)
  end.
  right. vm_compute. reflexivity.
Defined.
